(** * godis: connection and client of the vendored key-value store driver

    A shallow embedding of [vendor/github.com/piaohao/godis/connection.go]
    and of the parts of [redis.go] that decide how a [Redis] value guards,
    sends and closes.  Go's mutable receiver [c *connection] becomes explicit
    state; the network, the clock and the buffered codec streams (which live
    in files of the package that are not part of the sources at hand) are an
    interface, [Transport], whose operations thread an abstract [World]. *)

From Stdlib Require Import ZArith List String Bool Lia.
From Stdlib Require Import Strings.Byte.
Import ListNotations.
Open Scope Z_scope.
Open Scope string_scope.
Open Scope list_scope.

Set Implicit Arguments.
Set Warnings "-register-all".

(** ** Go's [int] on a 64-bit target *)

Module GoInt.
Definition min_int : Z := - 2 ^ 63.
Definition max_int : Z := 2 ^ 63 - 1.

(** Two's-complement wrap-around of an arithmetic result. *)
Definition wrap (z : Z) : Z := (z + 2 ^ 63) mod 2 ^ 64 - 2 ^ 63.

(** [x++] and [x--]. *)
Definition incr (z : Z) : Z := wrap (z + 1).
Definition decr (z : Z) : Z := wrap (z - 1).

Definition in_range (z : Z) : Prop := min_int <= z <= max_int.
End GoInt.

Arguments GoInt.min_int : simpl never.
Arguments GoInt.max_int : simpl never.

(** ** Errors and dynamic values *)

(** The error values the code tells apart.  [readProtocolWithCheckingBroken]
    switches on the dynamic type [*ConnectError]; everything else is left
    alone. *)
Inductive error : Type :=
| NetError (msg : string)       (* an error of package net, returned as is *)
| ConnectError (msg : string)   (* newConnectError *)
| DataError (msg : string).     (* newDataError *)

(** [err.Error()] *)
Definition Error (e : error) : string :=
  match e with
  | NetError m | ConnectError m | DataError m => m
  end.

Definition newConnectError (msg : string) : error := ConnectError msg.
Definition newDataError (msg : string) : error := DataError msg.

(** [interface{}]: the dynamic types that the type switches and assertions
    of connection.go mention, and [error], which [getAll] stores in its
    result. *)
Inductive value : Type :=
| VNil                              (* the nil interface *)
| VString (s : string)              (* string *)
| VBytes (b : list byte)            (* []byte *)
| VByte (b : byte)                  (* byte *)
| VInt64 (n : Z)                    (* int64 *)
| VInt64s (l : list Z)              (* []int64 *)
| VIfaces (l : list value)          (* []interface{} *)
| VError (e : error).               (* error *)

(** A run-time panic ends the call; nothing in these files recovers. *)
Inductive panic : Type :=
| NilDereference        (* invalid memory address or nil pointer dereference *)
| InterfaceConversion.  (* a failed type assertion [x.(T)] *)

Inductive outcome (A : Type) : Type :=
| Returns (a : A)
| Panics (p : panic).
Arguments Panics {A} p.

(** ** The connection *)

(** A [net.Conn], by identity. *)
Definition net_Conn : Type := nat.

(** The codec streams built by [connect]; each is bound to the socket it
    wraps, its buffer is part of the world.  In Go each stream also keeps the
    pointer [c] to its connection; the streams are taken to read through it
    (socket, timeout) and never to assign a field of the connection. *)
Record redisOutputStream : Type := newRedisOutputStream { os_conn : net_Conn }.
Record redisInputStream : Type := newRedisInputStream { is_conn : net_Conn }.
Record protocol : Type := newProtocol { os : redisOutputStream; ins : redisInputStream }.

(** [type connection struct]; the field [protocol] is [proto] here, its
    name being taken by the type.  [time.Duration] is an int64 count of
    nanoseconds. *)
Record connection : Type := mkConnection {
  host : string;
  port : Z;
  connectionTimeout : Z;
  soTimeout : Z;
  socket : option net_Conn;
  proto : option protocol;
  broken : bool;
  pipelinedCommands : Z
}.

Definition set_socket (s : option net_Conn) (c : connection) : connection :=
  mkConnection (host c) (port c) (connectionTimeout c) (soTimeout c)
               s (proto c) (broken c) (pipelinedCommands c).
Definition set_proto (p : option protocol) (c : connection) : connection :=
  mkConnection (host c) (port c) (connectionTimeout c) (soTimeout c)
               (socket c) p (broken c) (pipelinedCommands c).
Definition set_broken (b : bool) (c : connection) : connection :=
  mkConnection (host c) (port c) (connectionTimeout c) (soTimeout c)
               (socket c) (proto c) b (pipelinedCommands c).
Definition set_pipelinedCommands (n : Z) (c : connection) : connection :=
  mkConnection (host c) (port c) (connectionTimeout c) (soTimeout c)
               (socket c) (proto c) (broken c) n.

(** [type protocolCommand]: only its raw name is used here. *)
Record protocolCommand : Type := mkCommand { getRaw : list byte }.

(** Package constants declared outside the sources at hand. *)
Class Constants : Type := {
  defaultHost : string;
  defaultPort : Z;
  defaultTimeout : Z
}.

(** What the code calls and the sources at hand do not define: package net,
    the clock inside [SetDeadline], and the codec of protocol.go.  Every one
    of them may touch the network; each is a transition of [World]. *)
Class Transport : Type := {
  World : Type;
  (** [net.DialTimeout("tcp", fmt.Sprint(host, ":", port), timeout)] *)
  net_DialTimeout : string -> Z -> Z -> World -> (net_Conn + error) * World;
  (** [conn.SetDeadline(t)]: [None] is the zero time, [Some d] is
      [time.Now().Add(d)]. *)
  conn_SetDeadline : net_Conn -> option Z -> World -> option error * World;
  (** [conn.Close()] *)
  conn_Close : net_Conn -> World -> option error * World;
  (** [p.sendCommand(raw, args...)]: encode into the output stream. *)
  protocol_sendCommand :
    protocol -> list byte -> list (list byte) -> World -> option error * World;
  (** [p.read()]: decode one reply from the input stream. *)
  protocol_read : protocol -> World -> (value * option error) * World;
  (** [os.flush()] *)
  os_flush : redisOutputStream -> World -> option error * World;
  (** [fmt.Sprintf("%v", x)] *)
  fmt_v : value -> string
}.

(** ** A state monad over the receiver and the world *)

Section Monad.
Context {T : Transport}.

Definition M (S A : Type) : Type := S -> World -> outcome A * S * World.

Definition ret {S A} (a : A) : M S A := fun s w => (Returns a, s, w).

Definition bind {S A B} (m : M S A) (k : A -> M S B) : M S B :=
  fun s w =>
    match m s w with
    | (Returns a, s', w') => k a s' w'
    | (Panics p, s', w') => (Panics p, s', w')
    end.

Definition get {S} : M S S := fun s w => (Returns s, s, w).
Definition modify {S} (f : S -> S) : M S unit := fun s w => (Returns tt, f s, w).
Definition raise {S A} (p : panic) : M S A := fun s w => (Panics p, s, w).

(** A call into the transport. *)
Definition io {S A} (f : World -> A * World) : M S A :=
  fun s w => let (a, w') := f w in (Returns a, s, w').
End Monad.

Declare Scope go_scope.
Delimit Scope go_scope with go.
Notation "x <- m ;; k" := (bind m (fun x => k))
  (at level 61, m at next level, right associativity) : go_scope.
Notation "' p <- m ;; k" := (bind m (fun x => match x with p => k end))
  (at level 61, p pattern, m at next level, right associativity) : go_scope.
Notation "m ;;; k" := (bind m (fun _ => k))
  (at level 61, right associativity) : go_scope.
Open Scope go_scope.

(** ** connection.go *)

Section Connection.
Context {K : Constants} {T : Transport}.

Definition newConnection (host0 : string) (port0 : Z)
           (connectionTimeout0 soTimeout0 : Z) : connection :=
  let host1 := if String.eqb host0 "" then defaultHost else host0 in
  let port1 := if Z.eqb port0 0 then defaultPort else port0 in
  let connectionTimeout1 :=
    if Z.eqb connectionTimeout0 0 then defaultTimeout else connectionTimeout0 in
  let soTimeout1 := if Z.eqb soTimeout0 0 then defaultTimeout else soTimeout0 in
  (* the composite literal names five fields; the rest take zero values *)
  mkConnection host1 port1 connectionTimeout1 soTimeout1 None None false 0.

Definition isConnected : M connection bool :=
  c <- get ;;
  match socket c with
  | None => ret false
  | Some _ => ret true
  end.

Definition connect : M connection (option error) :=
  connected <- isConnected ;;
  if connected then ret None else
  c <- get ;;
  r <- io (net_DialTimeout (host c) (port c) (connectionTimeout c)) ;;
  match r with
  | inr err => ret (Some (newConnectError (Error err)))
  | inl conn =>
      err <- io (conn_SetDeadline conn (Some (soTimeout c))) ;;
      match err with
      | Some err => ret (Some (newConnectError (Error err)))
      | None =>
          modify (set_socket (Some conn)) ;;;
          modify (set_proto (Some (newProtocol (newRedisOutputStream conn)
                                               (newRedisInputStream conn)))) ;;;
          ret None
      end
  end.

(** [c.protocol.X]: a nil [protocol] pointer panics at the field access. *)
Definition the_protocol : M connection protocol :=
  c <- get ;;
  match proto c with
  | None => raise NilDereference
  | Some p => ret p
  end.

(** [c.socket.X]: a method call on a nil interface panics. *)
Definition the_socket : M connection net_Conn :=
  c <- get ;;
  match socket c with
  | None => raise NilDereference
  | Some s => ret s
  end.

Definition setTimeoutInfinite : M connection (option error) :=
  connected <- isConnected ;;
  err <- (if negb connected then connect else ret None) ;;
  match err with
  | Some err => ret (Some err)
  | None =>
      s <- the_socket ;;
      err <- io (conn_SetDeadline s None) ;;
      match err with
      | Some err =>
          modify (set_broken true) ;;;
          ret (Some (newConnectError (Error err)))
      | None => ret None
      end
  end.

Definition rollbackTimeout : M connection (option error) :=
  c <- get ;;
  match socket c with
  | None =>
      modify (set_broken true) ;;;
      ret (Some (newConnectError "socket is closed"))
  | Some s =>
      err <- io (conn_SetDeadline s (Some (connectionTimeout c))) ;;
      match err with
      | Some err =>
          modify (set_broken true) ;;;
          ret (Some (newConnectError (Error err)))
      | None => ret None
      end
  end.

Definition resetPipelinedCount : M connection unit :=
  modify (set_pipelinedCommands 0).

Definition incrPipelined : M connection unit :=
  modify (fun c => set_pipelinedCommands (GoInt.incr (pipelinedCommands c)) c).
Definition decrPipelined : M connection unit :=
  modify (fun c => set_pipelinedCommands (GoInt.decr (pipelinedCommands c)) c).

Definition sendRaw (raw : list byte) (args : list (list byte))
  : M connection (option error) :=
  err <- connect ;;
  match err with
  | Some err => ret (Some err)
  | None =>
      p <- the_protocol ;;
      err <- io (protocol_sendCommand p raw args) ;;
      match err with
      | Some err => ret (Some err)
      | None => incrPipelined ;;; ret None
      end
  end.

Definition sendCommand (cmd : protocolCommand) (args : list (list byte))
  : M connection (option error) :=
  sendRaw (getRaw cmd) args.

Definition sendCommandByStr (cmd : string) (args : list (list byte))
  : M connection (option error) :=
  sendRaw (list_byte_of_string cmd) args.

Definition readProtocolWithCheckingBroken : M connection (value * option error) :=
  c <- get ;;
  if broken c then
    ret (VNil, Some (newConnectError "attempting to read from a broken connection"))
  else
    p <- the_protocol ;;
    '(read, err) <- io (protocol_read p) ;;
    match err with
    | None => ret (read, None)
    | Some err =>
        match err with
        | ConnectError _ => modify (set_broken true)
        | _ => ret tt
        end ;;;
        ret (VNil, Some err)
    end.

Definition flush : M connection (option error) :=
  p <- the_protocol ;;
  err <- io (os_flush (os p)) ;;
  match err with
  | Some err =>
      modify (set_broken true) ;;;
      ret (Some (newConnectError (Error err)))
  | None => ret None
  end.

Definition getOne : M connection (value * option error) :=
  err <- flush ;;
  match err with
  | Some err => ret (VString "", Some err)
  | None => decrPipelined ;;; readProtocolWithCheckingBroken
  end.

(** The loops [for _, x := range l { arr = append(arr, x.(T)) }]: the first
    element of another dynamic type panics. *)
Fixpoint assert_each {A} (as_T : value -> option A) (l : list value)
  : option (list A) :=
  match l with
  | [] => Some []
  | x :: l' =>
      match as_T x with
      | None => None
      | Some a =>
          match assert_each as_T l' with
          | None => None
          | Some arr => Some (a :: arr)
          end
      end
  end.

Definition as_byte (v : value) : option byte :=
  match v with VByte b => Some b | _ => None end.
Definition as_bytes (v : value) : option (list byte) :=
  match v with VBytes b => Some b | _ => None end.
Definition as_int64 (v : value) : option Z :=
  match v with VInt64 n => Some n | _ => None end.

Definition getStatusCodeReply : M connection (string * option error) :=
  '(reply, err) <- getOne ;;
  match err with
  | Some err => ret ("", Some err)
  | None =>
      match reply with
      | VNil => ret ("", None)
      | VString t => ret (t, None)
      | VBytes t => ret (string_of_list_byte t, None)
      | _ => ret ("", Some (newDataError (String.append "data error:" (fmt_v reply))))
      end
  end.

Definition getBinaryBulkReply : M connection (list byte * option error) :=
  '(reply, err) <- getOne ;;
  match err with
  | Some err => ret ([], Some err)
  | None =>
      match reply with
      | VNil => ret ([], None)
      | VBytes b => ret (b, None)
      | VIfaces l =>
          match assert_each as_byte l with
          | Some arr => ret (arr, None)
          | None => raise InterfaceConversion
          end
      | _ => raise InterfaceConversion   (* return reply.([]byte), nil *)
      end
  end.

Definition getBulkReply : M connection (string * option error) :=
  '(result, err) <- getBinaryBulkReply ;;
  match err with
  | Some err => ret ("", Some err)
  | None => ret (string_of_list_byte result, None)
  end.

Definition getIntegerReply : M connection (Z * option error) :=
  '(reply, err) <- getOne ;;
  match err with
  | Some err => ret (0, Some err)
  | None =>
      match reply with
      | VNil => ret (0, None)
      | VInt64 n => ret (n, None)
      | _ => ret (-1, None)
      end
  end.

Definition getBinaryMultiBulkReply : M connection (list (list byte) * option error) :=
  '(reply, err) <- getOne ;;
  match err with
  | Some err => ret ([], Some err)
  | None =>
      match reply with
      | VNil => ret ([], None)
      | VIfaces resp =>
          match assert_each as_bytes resp with
          | Some arr => ret (arr, None)
          | None => raise InterfaceConversion
          end
      | _ => raise InterfaceConversion   (* resp := reply.([]interface{}) *)
      end
  end.

Definition getMultiBulkReply : M connection (list string * option error) :=
  '(reply, err) <- getBinaryMultiBulkReply ;;
  match err with
  | Some err => ret ([], Some err)
  | None => ret (map string_of_list_byte reply, None)
  end.

Definition getUnflushedObjectMultiBulkReply : M connection (list value * option error) :=
  '(reply, err) <- readProtocolWithCheckingBroken ;;
  match err with
  | Some err => ret ([], Some err)
  | None =>
      match reply with
      | VNil => ret ([], None)
      | VIfaces l => ret (l, None)
      | _ => raise InterfaceConversion
      end
  end.

Definition getRawObjectMultiBulkReply : M connection (list value * option error) :=
  getUnflushedObjectMultiBulkReply.

Definition getObjectMultiBulkReply : M connection (list value * option error) :=
  err <- flush ;;
  match err with
  | Some err => ret ([], Some err)
  | None => decrPipelined ;;; getRawObjectMultiBulkReply
  end.

Definition getIntegerMultiBulkReply : M connection (list Z * option error) :=
  '(reply, err) <- getOne ;;
  match err with
  | Some err => ret ([], Some err)
  | None =>
      match reply with
      | VNil => ret ([], None)
      | VIfaces l =>
          match assert_each as_int64 l with
          | Some arr => ret (arr, None)
          | None => raise InterfaceConversion
          end
      | VInt64s l => ret (l, None)
      | _ => raise InterfaceConversion   (* return reply.([]int64), nil *)
      end
  end.

(** [for c.pipelinedCommands > num { ... }].  The loop is bounded by fuel;
    [None] is the loop still running when the fuel is gone. *)
Fixpoint getAll_loop (fuel : nat) (num : Z) (all : list value)
  : M connection (option (list value)) :=
  c <- get ;;
  if pipelinedCommands c >? num then
    match fuel with
    | O => ret None
    | S fuel' =>
        '(obj, err) <- readProtocolWithCheckingBroken ;;
        let all' :=
          match err with
          | Some err => all ++ [VError err]
          | None => all ++ [obj]
          end in
        decrPipelined ;;;
        getAll_loop fuel' num all'
    end
  else ret (Some all).

(** [getAll(expect ...int)]; the counter falls by one per turn of the loop,
    so [pipelinedCommands - num] turns are all it can take. *)
Definition getAll (expect : list Z) : M connection (option (value * option error)) :=
  let num := match expect with n :: _ => n | [] => 0 end in
  err <- flush ;;
  match err with
  | Some err => ret (Some (VNil, Some err))
  | None =>
      c <- get ;;
      r <- getAll_loop (Z.to_nat (pipelinedCommands c - num)) num [] ;;
      match r with
      | Some all => ret (Some (VIfaces all, None))
      | None => ret None
      end
  end.

Definition close : M connection (option error) :=
  c <- get ;;
  match socket c with
  | None => ret None
  | Some s =>
      err <- io (conn_Close s) ;;
      modify (set_socket None) ;;;
      ret err
  end.
End Connection.

(** ** redis.go *)

(** A [*Pool], by identity. *)
Definition Pool : Type := nat.

(** Modelled from the spec: the entry of a pipeline's queue, "a reply is
    owed here" (pipeline.go is not part of the sources at hand). *)
Inductive response : Type := owed.

(** Modelled from the spec: [type Pipeline], of which redis.go reads the
    queue [pipelinedResponses] only. *)
Record Pipeline : Type := mkPipeline { pipelinedResponses : list response }.

(** Modelled from the spec: [type client] of client.go, which "owns exactly
    one Connection; holds in_multi: bool".  redis.go reaches the embedded
    connection as [r.client.connection] and its fields and methods through
    promotion ([r.client.broken], [r.client.close()]). *)
Record client : Type := mkClient {
  conn : connection;
  isInMulti : bool
}.

Definition set_conn (c : connection) (cl : client) : client :=
  mkClient c (isInMulti cl).

(** [type Redis struct].  The fields are pointers, [None] is nil; they carry
    the prefix [r_] because their Go names are those of the types.  The
    mutex [mu] and [activeTime] play no part in what follows. *)
Record Redis : Type := mkRedis {
  r_client : option client;
  r_pipeline : option Pipeline;
  r_dataSource : option Pool
}.

Definition set_client (cl : option client) (r : Redis) : Redis :=
  mkRedis cl (r_pipeline r) (r_dataSource r).

(** The pool of pool.go, which is not part of the sources at hand: the two
    methods [Close] hands the receiver to. *)
Class PoolOps {T : Transport} : Type := {
  returnBrokenResourceObject : Pool -> M Redis (option error);
  returnResourceObject : Pool -> M Redis (option error)
}.

Section Redis.
Context {K : Constants} {T : Transport} {P : PoolOps}.

(** [r.client.m(...)] for a method [m] of the connection; a nil [r.client]
    panics when the embedded pointer is read. *)
Definition on_client {A} (m : M connection A) : M Redis A :=
  fun r w =>
    match r_client r with
    | None => (Panics NilDereference, r, w)
    | Some cl =>
        let '(o, c', w') := m (conn cl) w in
        (o, set_client (Some (set_conn c' cl)) r, w')
    end.

Definition StrToBytes (s : string) : list byte := list_byte_of_string s.

Definition cmdSet : protocolCommand := mkCommand (list_byte_of_string "SET").
Definition cmdGet : protocolCommand := mkCommand (list_byte_of_string "GET").
Definition cmdIncr : protocolCommand := mkCommand (list_byte_of_string "INCR").
Definition cmdHset : protocolCommand := mkCommand (list_byte_of_string "HSET").
Definition cmdBitcount : protocolCommand := mkCommand (list_byte_of_string "BITCOUNT").

(** Modelled from the spec: the command builders of client.go, each of which
    is to "serialize and send via Connection". *)
Definition client_set (key value : string) : M connection (option error) :=
  sendCommand cmdSet [StrToBytes key; StrToBytes value].
Definition client_get (key : string) : M connection (option error) :=
  sendCommand cmdGet [StrToBytes key].
Definition client_incr (key : string) : M connection (option error) :=
  sendCommand cmdIncr [StrToBytes key].
Definition client_hset (key field value : string) : M connection (option error) :=
  sendCommand cmdHset [StrToBytes key; StrToBytes field; StrToBytes value].
Definition client_bitcount (key : string) : M connection (option error) :=
  sendCommand cmdBitcount [StrToBytes key].

(** [func (r *Redis) Close() error], on the pointer [r]. *)
Definition Close : M (option Redis) (option error) :=
  fun r w =>
    match r with
    | None => (Returns None, None, w)
    | Some r =>
        let m : M Redis (option error) :=
          match r_dataSource r with
          | Some pool =>
              match r_client r with
              | None => raise NilDereference
              | Some cl =>
                  if broken (conn cl)
                  then returnBrokenResourceObject pool
                  else returnResourceObject pool
              end
          | None =>
              match r_client r with
              | Some _ => on_client close
              | None => ret None
              end
          end in
        let '(o, r', w') := m r w in (o, Some r', w')
    end.

Definition checkIsInMultiOrPipeline : M Redis (option error) :=
  r <- get ;;
  match r_client r with
  | None => raise NilDereference
  | Some cl =>
      if isInMulti cl then
        ret (Some (newDataError
          "cannot use Redis when in Multi. Please use Transaction or reset redis state"))
      else
        match r_pipeline r with
        | Some p =>
            if Z.of_nat (List.length (pipelinedResponses p)) >? 0 then
              ret (Some (newDataError
                "cannot use Redis when in Pipeline. Please use Pipeline or reset redis state"))
            else ret None
        | None => ret None
        end
  end.

(** The shape shared by the guarded command methods: guard, send, read. *)
Definition guarded {A} (zero : A) (send : M connection (option error))
           (reply : M connection (A * option error)) : M Redis (A * option error) :=
  err <- checkIsInMultiOrPipeline ;;
  match err with
  | Some err => ret (zero, Some err)
  | None =>
      err <- on_client send ;;
      match err with
      | Some err => ret (zero, Some err)
      | None => on_client reply
      end
  end.

(** [Redis.Set]; the name is a keyword here. *)
Definition Set_ (key value : string) : M Redis (string * option error) :=
  guarded "" (client_set key value) getStatusCodeReply.

Definition Get (key : string) : M Redis (string * option error) :=
  guarded "" (client_get key) getBulkReply.

Definition Incr (key : string) : M Redis (Z * option error) :=
  guarded 0 (client_incr key) getIntegerReply.

Definition HSet (key field value : string) : M Redis (Z * option error) :=
  guarded 0 (client_hset key field value) getIntegerReply.

(** [BitCount] goes to the client at once. *)
Definition BitCount (key : string) : M Redis (Z * option error) :=
  err <- on_client (client_bitcount key) ;;
  match err with
  | Some err => ret (0, Some err)
  | None => on_client getIntegerReply
  end.
End Redis.

(** ** Runs of the operations that move the counter *)

Inductive op : Type :=
| Send (cmd : protocolCommand) (args : list (list byte))
| GetOne
| GetAll (expect : list Z)
| GetObjectMultiBulkReply.

Section Runs.
Context {T : Transport}.

Definition exec (o : op) : M connection unit :=
  match o with
  | Send cmd args => sendCommand cmd args ;;; ret tt
  | GetOne => getOne ;;; ret tt
  | GetAll expect => getAll expect ;;; ret tt
  | GetObjectMultiBulkReply => getObjectMultiBulkReply ;;; ret tt
  end.

(** The connection after each call of a sequence; a panic ends it. *)
Fixpoint run (ops : list op) (c : connection) (w : World) : list connection :=
  match ops with
  | [] => []
  | o :: ops' =>
      match exec o c w with
      | (Returns _, c', w') => c' :: run ops' c' w'
      | (Panics _, c', _) => [c']
      end
  end.

(** What a call needs of the counter: a send needs room below the largest
    [int], a single read needs a command that was sent and is not yet read,
    a drain needs a target that is not negative. *)
Definition admits (o : op) (c : connection) : Prop :=
  match o with
  | Send _ _ => pipelinedCommands c < GoInt.max_int
  | GetOne | GetObjectMultiBulkReply => 1 <= pipelinedCommands c
  | GetAll expect => 0 <= match expect with n :: _ => n | [] => 0 end
  end.

Fixpoint matched (ops : list op) (c : connection) (w : World) : Prop :=
  match ops with
  | [] => True
  | o :: ops' =>
      admits o c /\
      match exec o c w with
      | (Returns _, c', w') => matched ops' c' w'
      | (Panics _, _, _) => True
      end
  end.

(** An operation that fails at once: a connection error is returned and
    neither the connection nor the world has moved. *)
Definition fails_fast {A} (m : M connection A) (err_of : A -> option error)
           (c : connection) (w : World) : Prop :=
  exists a msg, m c w = (Returns a, c, w) /\ err_of a = Some (ConnectError msg).

(** What a drain stores for one reply: the error if there is one. *)
Definition inline (r : value * option error) : value :=
  match r with
  | (_, Some err) => VError err
  | (obj, None) => obj
  end.

(** The next [n] replies of the stream, in the order they arrive. *)
Fixpoint read_n (n : nat) (p : protocol) (w : World)
  : list (value * option error) * World :=
  match n with
  | O => ([], w)
  | S n' =>
      let (r, w') := protocol_read p w in
      let (rs, w'') := read_n n' p w' in
      (r :: rs, w'')
  end.

Definition is_ConnectError (e : option error) : bool :=
  match e with
  | Some (ConnectError _) => true
  | _ => false
  end.
End Runs.

(** ** A scripted transport, to run the model on *)

Module Sim.
Inductive event : Type :=
| Dial (h : string) (p : Z)
| SetDeadline (s : net_Conn) (d : option Z)
| CloseConn (s : net_Conn)
| Encode (raw : list byte) (args : list (list byte))
| Flush (s : net_Conn)
| Read (s : net_Conn)
| ReturnBroken (p : Pool)
| ReturnHealthy (p : Pool).

(** [up]: the peer accepts connections and writes; [inbox]: the replies the
    decoder will find, in order; [trace]: the calls made so far, latest
    first. *)
Record world : Type := mkWorld {
  up : bool;
  inbox : list (value * option error);
  trace : list event
}.

Definition log (e : event) (w : world) : world :=
  mkWorld (up w) (inbox w) (e :: trace w).

Definition dial (h : string) (p : Z) (_ : Z) (w : world) : (net_Conn + error) * world :=
  if up w then (inl 1%nat, log (Dial h p) w)
  else (inr (NetError "connection refused"), log (Dial h p) w).

Definition read (p : protocol) (w : world) : (value * option error) * world :=
  match inbox w with
  | [] => ((VNil, Some (ConnectError "i/o timeout")), log (Read (is_conn (ins p))) w)
  | r :: rest => (r, mkWorld (up w) rest (Read (is_conn (ins p)) :: trace w))
  end.

Definition flush_os (o : redisOutputStream) (w : world) : option error * world :=
  if up w then (None, log (Flush (os_conn o)) w)
  else (Some (ConnectError "broken pipe"), log (Flush (os_conn o)) w).

Definition show (v : value) : string :=
  match v with
  | VNil => "<nil>"
  | VString s => s
  | VInt64 _ => "int64"
  | _ => "?"
  end.

#[local] Instance transport : Transport := {|
  World := world;
  net_DialTimeout := dial;
  conn_SetDeadline := fun s d w => (None, log (SetDeadline s d) w);
  conn_Close := fun s w => (None, log (CloseConn s) w);
  protocol_sendCommand := fun _ raw args w => (None, log (Encode raw args) w);
  protocol_read := read;
  os_flush := flush_os;
  fmt_v := show
|}.

#[local] Instance constants : Constants := {|
  defaultHost := "localhost";
  defaultPort := 6379;
  defaultTimeout := 5000000000
|}.

#[local] Instance pool : PoolOps := {|
  returnBrokenResourceObject := fun p r w => (Returns None, r, log (ReturnBroken p) w);
  returnResourceObject := fun p r w => (Returns None, r, log (ReturnHealthy p) w)
|}.

Definition quiet (replies : list (value * option error)) : world :=
  mkWorld true replies [].
Definition down : world := mkWorld false [] [].

Definition streams : protocol :=
  newProtocol (newRedisOutputStream 1%nat) (newRedisInputStream 1%nat).

(** A connection that has dialled, with [n] commands outstanding. *)
Definition live (n : Z) (b : bool) : connection :=
  mkConnection "localhost" 6379 5000000000 5000000000 (Some 1%nat) (Some streams) b n.

Definition fresh : connection := newConnection "" 0 0 0.

Definition redis (multi : bool) (ds : option Pool) (b : bool) : Redis :=
  mkRedis (Some (mkClient (live 0 b) multi)) None ds.

(** Sequences of calls and replies to run. *)
Definition unmatched_read : list op :=
  [Send (mkCommand (list_byte_of_string "GET")) [list_byte_of_string "k"]; GetOne; GetOne].

Definition matched_reads : list op :=
  [Send (mkCommand (list_byte_of_string "INCR")) [list_byte_of_string "n"];
   Send (mkCommand (list_byte_of_string "INCR")) [list_byte_of_string "n"];
   GetOne; GetAll []].

End Sim.

(** ** Every method of a connection, as a call *)

Inductive method : Type :=
| m_connect
| m_isConnected
| m_setTimeoutInfinite
| m_rollbackTimeout
| m_resetPipelinedCount
| m_sendCommand (cmd : protocolCommand) (args : list (list byte))
| m_sendCommandByStr (cmd : string) (args : list (list byte))
| m_readProtocolWithCheckingBroken
| m_getStatusCodeReply
| m_getBulkReply
| m_getBinaryBulkReply
| m_getIntegerReply
| m_getMultiBulkReply
| m_getBinaryMultiBulkReply
| m_getUnflushedObjectMultiBulkReply
| m_getRawObjectMultiBulkReply
| m_getObjectMultiBulkReply
| m_getIntegerMultiBulkReply
| m_getOne
| m_getAll (expect : list Z)
| m_flush
| m_close.

Section Calls.
Context {T : Transport}.

Definition call (m : method) : M connection unit :=
  match m with
  | m_connect => connect ;;; ret tt
  | m_isConnected => isConnected ;;; ret tt
  | m_setTimeoutInfinite => setTimeoutInfinite ;;; ret tt
  | m_rollbackTimeout => rollbackTimeout ;;; ret tt
  | m_resetPipelinedCount => resetPipelinedCount
  | m_sendCommand cmd args => sendCommand cmd args ;;; ret tt
  | m_sendCommandByStr cmd args => sendCommandByStr cmd args ;;; ret tt
  | m_readProtocolWithCheckingBroken => readProtocolWithCheckingBroken ;;; ret tt
  | m_getStatusCodeReply => getStatusCodeReply ;;; ret tt
  | m_getBulkReply => getBulkReply ;;; ret tt
  | m_getBinaryBulkReply => getBinaryBulkReply ;;; ret tt
  | m_getIntegerReply => getIntegerReply ;;; ret tt
  | m_getMultiBulkReply => getMultiBulkReply ;;; ret tt
  | m_getBinaryMultiBulkReply => getBinaryMultiBulkReply ;;; ret tt
  | m_getUnflushedObjectMultiBulkReply => getUnflushedObjectMultiBulkReply ;;; ret tt
  | m_getRawObjectMultiBulkReply => getRawObjectMultiBulkReply ;;; ret tt
  | m_getObjectMultiBulkReply => getObjectMultiBulkReply ;;; ret tt
  | m_getIntegerMultiBulkReply => getIntegerMultiBulkReply ;;; ret tt
  | m_getOne => getOne ;;; ret tt
  | m_getAll expect => getAll expect ;;; ret tt
  | m_flush => flush ;;; ret tt
  | m_close => close ;;; ret tt
  end.

(** The connection after each call of a sequence; a panic ends it. *)
Fixpoint history (ms : list method) (c : connection) (w : World) : list connection :=
  match ms with
  | [] => []
  | m :: ms' =>
      match call m c w with
      | (Returns _, c', w') => c' :: history ms' c' w'
      | (Panics _, c', _) => [c']
      end
  end.

(** An action all of whose results are related to the connection it
    started from. *)
Definition preserves {A} (R : connection -> connection -> Prop)
           (m : M connection A) : Prop :=
  forall c w o c' w', m c w = (o, c', w') -> R c c'.
End Calls.

(** What no method undoes: the settings, a raised broken flag, streams once
    built, and streams wherever there is a socket. *)
Record evolves (c c' : connection) : Prop := mkEvolves {
  ev_host : host c' = host c;
  ev_port : port c' = port c;
  ev_connectionTimeout : connectionTimeout c' = connectionTimeout c;
  ev_soTimeout : soTimeout c' = soTimeout c;
  ev_broken : broken c = true -> broken c' = true;
  ev_proto : proto c <> None -> proto c' <> None;
  ev_coupled : (socket c <> None -> proto c <> None) ->
               socket c' <> None -> proto c' <> None
}.

(** A socket never comes without its streams. *)
Definition coupled (c : connection) : Prop :=
  socket c <> None -> proto c <> None.

(** ** More of redis.go *)

(** The command builders of client.go and the reply converter of the
    package's utilities, which these methods call and the sources at hand do
    not define.  A builder is a method of [*client]. *)
Class Builders {T : Transport} : Type := {
  client_eval : string -> Z -> list string -> M client (option error);
  client_scriptExists : list string -> M client (option error);
  client_sentinelGetMasterAddrByName : string -> M client (option error);
  ObjToEvalResult : value -> option error -> value * option error
}.

Section MoreRedis.
Context {T : Transport} {B : Builders}.

(** [r.client.m(...)] for a method [m] of the client. *)
Definition on_the_client {A} (m : M client A) : M Redis A :=
  fun r w =>
    match r_client r with
    | None => (Panics NilDereference, r, w)
    | Some cl =>
        let '(o, cl', w') := m cl w in
        (o, set_client (Some cl') r, w')
    end.

(** [defer d]: [d] runs when the body is left, by return or by panic; what
    it returns is dropped, what it does to the state stays. *)
Definition defer {S A B'} (d : M S B') (body : M S A) : M S A :=
  fun s w =>
    let '(o, s1, w1) := body s w in
    let '(o', s2, w2) := d s1 w1 in
    (match o' with Panics p => Panics p | Returns _ => o end, s2, w2).

Definition Eval (script : string) (keyCount : Z) (params : list string)
  : M Redis (value * option error) :=
  err <- on_client setTimeoutInfinite ;;
  defer (on_client rollbackTimeout)
    (match err with
     | Some err => ret (VNil, Some err)
     | None =>
         err <- on_the_client (client_eval script keyCount params) ;;
         match err with
         | Some err => ret (VNil, Some err)
         | None =>
             '(obj, err) <- on_client getOne ;;
             ret (ObjToEvalResult obj err)
         end
     end).

Definition EvalByKeyArgs (script : string) (keys args : list string)
  : M Redis (value * option error) :=
  err <- on_client setTimeoutInfinite ;;
  defer (on_client rollbackTimeout)
    (match err with
     | Some err => ret (VNil, Some err)
     | None =>
         let params := ([] ++ keys) ++ args in
         err <- on_the_client
                  (client_eval script (Z.of_nat (List.length keys)) params) ;;
         match err with
         | Some err => ret (VNil, Some err)
         | None =>
             '(obj, err) <- on_client getOne ;;
             ret (ObjToEvalResult obj err)
         end
     end).

Definition ScriptExists (sha1 : list string) : M Redis (list bool * option error) :=
  err <- on_the_client (client_scriptExists sha1) ;;
  match err with
  | Some err => ret ([], Some err)
  | None =>
      '(reply, err) <- on_client getIntegerMultiBulkReply ;;
      match err with
      | Some err => ret ([], Some err)
      | None => ret (map (fun re => Z.eqb re 1) reply, None)
      end
  end.

(** One turn of the loop of [SentinelGetMasterAddrByName]. *)
Definition addr_of (re : value) : option string :=
  match re with
  | VNil => Some ""
  | VBytes b => Some (string_of_list_byte b)
  | _ => None   (* re.([]byte) *)
  end.

Definition SentinelGetMasterAddrByName (masterName : string)
  : M Redis (list string * option error) :=
  err <- on_the_client (client_sentinelGetMasterAddrByName masterName) ;;
  match err with
  | Some err => ret ([], Some err)
  | None =>
      '(reply, err) <- on_client getObjectMultiBulkReply ;;
      match err with
      | Some err => ret ([], Some err)
      | None =>
          match assert_each addr_of reply with
          | Some addrs => ret (addrs, None)
          | None => raise InterfaceConversion
          end
      end
  end.
End MoreRedis.

(** A [Redis] that is in neither batched mode. *)
Definition simple_mode (r : Redis) (cl : client) : Prop :=
  r_client r = Some cl /\ isInMulti cl = false /\
  (r_pipeline r = None \/
   exists q, r_pipeline r = Some q /\ pipelinedResponses q = []).

(** Builders for the scripted transport: each sends its command name. *)
Module SimBuilders.
Definition sends (name : string) (args : list string) : M (T := Sim.transport) client (option error) :=
  fun cl w =>
    let '(o, c', w') :=
      sendCommandByStr (T := Sim.transport) name (map list_byte_of_string args)
                       (conn cl) w in
    (o, set_conn c' cl, w').

#[local] Instance builders : Builders (T := Sim.transport) := {|
  client_eval := fun script _ params => sends "EVAL" (script :: params);
  client_scriptExists := fun sha1 => sends "SCRIPT" ("EXISTS" :: sha1);
  client_sentinelGetMasterAddrByName :=
    fun name => sends "SENTINEL" ["get-master-addr-by-name"; name];
  ObjToEvalResult := fun obj err => (obj, err)
|}.

(** A client with a pipeline that holds one response, and a client that has
    not connected yet. *)
Definition piped : Redis :=
  mkRedis (Some (mkClient (Sim.live 0 false) false))
          (Some (mkPipeline [owed])) None.

Definition unconnected : Redis :=
  mkRedis (Some (mkClient Sim.fresh false)) None None.
End SimBuilders.

(** * Properties *)

(** ** Arithmetic of the counter *)

Module GoIntFacts.
Import GoInt.

Lemma wrap_small z : in_range z -> wrap z = z.
Proof.
  unfold in_range, min_int, max_int, wrap. intros Hz.
  rewrite Z.mod_small; lia.
Qed.

Lemma incr_small z : min_int <= z < max_int -> incr z = z + 1.
Proof.
  intros Hz. unfold incr. apply wrap_small.
  unfold in_range, min_int, max_int in *. lia.
Qed.

Lemma decr_small z : min_int < z <= max_int -> decr z = z - 1.
Proof.
  intros Hz. unfold decr. apply wrap_small.
  unfold in_range, min_int, max_int in *. lia.
Qed.

Lemma incr_neq z : in_range z -> incr z <> z.
Proof.
  unfold in_range, min_int, max_int. intros Hz.
  destruct (Z.eq_dec z (2 ^ 63 - 1)) as [->|Hne].
  - vm_compute. discriminate.
  - rewrite incr_small; unfold min_int, max_int; lia.
Qed.
End GoIntFacts.

(** ** Reasoning about the monad *)

Section MonadFacts.
Context {T : Transport}.

Lemma bind_returns {S A B} (m : M S A) (k : A -> M S B) s w a s' w' :
  m s w = (Returns a, s', w') -> bind m k s w = k a s' w'.
Proof. intros E. unfold bind. now rewrite E. Qed.

Lemma bind_panics {S A B} (m : M S A) (k : A -> M S B) s w p s' w' :
  m s w = (Panics p, s', w') -> bind m k s w = (Panics p, s', w').
Proof. intros E. unfold bind. now rewrite E. Qed.
End MonadFacts.

Ltac go_unfold :=
  unfold bind, ret, get, modify, raise, io in *; cbn [fst snd] in *.

(** ** connect, newConnection *)

Section ConnectionFacts.
Context {K : Constants} {T : Transport}.

(** C8.  [connect] on a connection that holds a socket returns nil and
    leaves every field of the connection, and the world (no dial, no
    deadline), as they were. *)
Theorem connect_idempotent (c : connection) (w : World) (s : net_Conn) :
  socket c = Some s -> connect c w = (Returns None, c, w).
Proof.
  intros Hs. unfold connect, isConnected. go_unfold. now rewrite Hs.
Qed.

(** C9.  [newConnection] replaces each zero-valued setting by its default and
    keeps every other one; the connection it returns is not broken, has no
    socket and no streams, and no command outstanding. *)
Theorem newConnection_defaults (h : string) (p ct st : Z) :
  let c := newConnection h p ct st in
  (h = "" -> host c = defaultHost) /\ (h <> "" -> host c = h) /\
  (p = 0 -> port c = defaultPort) /\ (p <> 0 -> port c = p) /\
  (ct = 0 -> connectionTimeout c = defaultTimeout) /\
  (ct <> 0 -> connectionTimeout c = ct) /\
  (st = 0 -> soTimeout c = defaultTimeout) /\ (st <> 0 -> soTimeout c = st) /\
  broken c = false /\ socket c = None /\ proto c = None /\
  pipelinedCommands c = 0.
Proof.
  cbn [newConnection host port connectionTimeout soTimeout broken socket proto
       pipelinedCommands].
  destruct (String.eqb_spec h ""), (Z.eqb_spec p 0), (Z.eqb_spec ct 0),
    (Z.eqb_spec st 0); repeat split; intros; congruence.
Qed.

(** [connect] either succeeds, leaving a socket and streams, or reports a
    connection error and assigns nothing; the counter and the broken flag
    are never touched. *)
Lemma connect_cases (c : connection) (w : World) :
  exists o c' w', connect c w = (Returns o, c', w') /\
    pipelinedCommands c' = pipelinedCommands c /\ broken c' = broken c /\
    match o with
    | None => (exists p, proto c' = Some p) \/ (c' = c /\ w' = w)
    | Some e => c' = c /\ exists msg, e = ConnectError msg
    end.
Proof.
  unfold connect, isConnected. go_unfold.
  destruct (socket c) as [s|] eqn:Hs.
  - exists None, c, w. repeat split; auto.
  - destruct (net_DialTimeout (host c) (port c) (connectionTimeout c) w)
      as [[s|e] w1].
    + destruct (conn_SetDeadline s (Some (soTimeout c)) w1) as [[e|] w2].
      * exists (Some (newConnectError (Error e))), c, w2.
        repeat split; eauto.
      * eexists None, _, w2. split; [reflexivity|].
        cbn. repeat split. left. eauto.
    + exists (Some (newConnectError (Error e))), c, w1.
      repeat split; eauto.
Qed.

Lemma flush_cases (c : connection) (w : World) :
  (proto c = None /\ flush c w = (Panics NilDereference, c, w)) \/
  (exists p w', proto c = Some p /\ os_flush (os p) w = (None, w') /\
     flush c w = (Returns None, c, w')) \/
  (exists p e w', proto c = Some p /\ os_flush (os p) w = (Some e, w') /\
     flush c w = (Returns (Some (ConnectError (Error e))), set_broken true c, w')).
Proof.
  unfold flush, the_protocol. go_unfold.
  destruct (proto c) as [p|] eqn:Hp; [right|left; auto].
  destruct (os_flush (os p) w) as [[e|] w'] eqn:Hf.
  - right. exists p, e, w'. auto.
  - left. exists p, w'. auto.
Qed.

(** A read leaves the counter, the socket and the streams alone; it never
    clears the broken flag. *)
Lemma read_frame (c : connection) (w : World) :
  forall o c' w', readProtocolWithCheckingBroken c w = (o, c', w') ->
    pipelinedCommands c' = pipelinedCommands c /\ proto c' = proto c /\
    socket c' = socket c /\ (broken c = true -> broken c' = true).
Proof.
  unfold readProtocolWithCheckingBroken, the_protocol. go_unfold.
  intros o c' w'.
  destruct (broken c) eqn:Hb.
  - intros [= <- <- <-]. auto.
  - destruct (proto c) as [p|] eqn:Hp.
    + destruct (protocol_read p w) as [[rd [e|]] w1].
      * destruct e; intros [= <- <- <-]; cbn; repeat split;
          discriminate || assumption || reflexivity.
      * intros [= <- <- <-]. repeat split; discriminate || assumption || reflexivity.
    + intros [= <- <- <-]. repeat split; discriminate || assumption || reflexivity.
Qed.
End ConnectionFacts.

(** ** Fencing of a broken connection, and sending *)

Section SendFacts.
Context {T : Transport}.

(** C1, as the code has it.  On a connection whose broken flag is set,
    [readProtocolWithCheckingBroken] returns a connection error at once: the
    decoder is not called, the world and the connection stay as they were.
    The flag is consulted by this read only. *)
Theorem read_fenced_when_broken (c : connection) (w : World) :
  broken c = true -> fails_fast readProtocolWithCheckingBroken snd c w.
Proof.
  intros Hb. exists (VNil, Some (newConnectError "attempting to read from a broken connection")).
  eexists. split; [|reflexivity].
  unfold readProtocolWithCheckingBroken. go_unfold. now rewrite Hb.
Qed.

Lemma sendRaw_cases (raw : list byte) (args : list (list byte))
      (c : connection) (w : World) :
  forall o c' w', sendRaw raw args c w = (o, c', w') ->
    (o = Returns None /\
     pipelinedCommands c' = GoInt.incr (pipelinedCommands c) /\
     exists c1 w1 p, connect c w = (Returns None, c1, w1) /\ proto c1 = Some p /\
       protocol_sendCommand p raw args w1 = (None, w')) \/
    (o <> Returns None /\ pipelinedCommands c' = pipelinedCommands c).
Proof.
  intros o c' w'. unfold sendRaw.
  destruct (connect_cases c w) as (oc & c1 & w1 & Hc & Hpc & _ & _).
  erewrite bind_returns by exact Hc.
  destruct oc as [e|].
  - unfold ret. intros [= <- <- <-]. right. split; [discriminate|assumption].
  - unfold the_protocol, incrPipelined. go_unfold.
    destruct (proto c1) as [p|] eqn:Hp.
    + destruct (protocol_sendCommand p raw args w1) as [[e|] w2] eqn:Hs.
      * intros [= <- <- <-]. right. split; [discriminate|assumption].
      * intros [= <- <- <-]. left. cbn. rewrite Hpc. repeat split.
        exists c1, w1, p. auto.
    + intros [= <- <- <-]. right. split; [discriminate|assumption].
Qed.

(** C7.  With no socket and a dial that fails, [sendCommand] returns the
    connection error and the connection is the one it was given, counter
    included.  Whatever the outcome, the counter moves (by one) exactly when
    the call returns nil, which it does only after [connect] returned nil and
    the encoder returned nil. *)
Theorem sendCommand_atomic (cmd : protocolCommand) (args : list (list byte))
        (c : connection) (w : World) :
  (forall e w1, socket c = None ->
     net_DialTimeout (host c) (port c) (connectionTimeout c) w = (inr e, w1) ->
     sendCommand cmd args c w = (Returns (Some (ConnectError (Error e))), c, w1)) /\
  (forall o c' w', sendCommand cmd args c w = (o, c', w') ->
     (o = Returns None /\
      pipelinedCommands c' = GoInt.incr (pipelinedCommands c) /\
      exists c1 w1 p, connect c w = (Returns None, c1, w1) /\ proto c1 = Some p /\
        protocol_sendCommand p (getRaw cmd) args w1 = (None, w')) \/
     (o <> Returns None /\ pipelinedCommands c' = pipelinedCommands c)).
Proof.
  split.
  - intros e w1 Hs Hd. unfold sendCommand, sendRaw, connect, isConnected.
    go_unfold. now rewrite Hs, Hd.
  - intros o c' w'. apply sendRaw_cases.
Qed.
End SendFacts.

(** ** The counter of outstanding commands *)

Section CounterFacts.
Context {T : Transport}.

#[local] Abbreviation pc := pipelinedCommands.

Lemma getOne_counter (c : connection) (w : World) :
  forall o c' w', getOne c w = (o, c', w') ->
    pc c' = pc c \/ pc c' = GoInt.decr (pc c).
Proof.
  intros o c' w'. unfold getOne.
  destruct (flush_cases c w) as [[_ E]|[(p & w1 & _ & _ & E)|(p & e & w1 & _ & _ & E)]].
  - erewrite bind_panics by exact E. intros [= <- <- <-]. now left.
  - erewrite bind_returns by exact E. unfold decrPipelined, bind at 1, modify.
    intros H. apply read_frame in H. cbn in H. right. apply H.
  - erewrite bind_returns by exact E. unfold ret. intros [= <- <- <-]. now left.
Qed.

Lemma getObjectMultiBulkReply_counter (c : connection) (w : World) :
  forall o c' w', getObjectMultiBulkReply c w = (o, c', w') ->
    pc c' = pc c \/ pc c' = GoInt.decr (pc c).
Proof.
  intros o c' w'.
  unfold getObjectMultiBulkReply, getRawObjectMultiBulkReply,
    getUnflushedObjectMultiBulkReply.
  destruct (flush_cases c w) as [[_ E]|[(p & w1 & _ & _ & E)|(p & e & w1 & _ & _ & E)]].
  - erewrite bind_panics by exact E. intros [= <- <- <-]. now left.
  - erewrite bind_returns by exact E. unfold decrPipelined, bind at 1, modify.
    unfold bind.
    destruct (readProtocolWithCheckingBroken _ w1) as [[[[rd er]|q] c2] w2] eqn:R;
      apply read_frame in R; cbn in R; destruct R as (R & _).
    + destruct er; [|destruct rd]; unfold ret, raise; intros [= <- <- <-]; now right.
    + intros [= <- <- <-]. now right.
  - erewrite bind_returns by exact E. unfold ret. intros [= <- <- <-]. now left.
Qed.

(** The drain loop: the counter only falls, and not below the target. *)
Lemma getAll_loop_counter (fuel : nat) (num : Z) :
  forall all c w o c' w',
    getAll_loop fuel num all c w = (o, c', w') ->
    GoInt.min_int <= num -> pc c <= GoInt.max_int ->
    pc c' <= pc c /\ Z.min num (pc c) <= pc c'.
Proof.
  induction fuel as [|fuel IH]; intros all c w o c' w'; cbn [getAll_loop];
    unfold bind at 1, get; destruct (Z.gtb_spec (pc c) num) as [Hgt|Hle].
  - unfold ret. intros [= <- <- <-] _ _. lia.
  - unfold ret. intros [= <- <- <-] _ _. lia.
  - unfold bind at 1.
    destruct (readProtocolWithCheckingBroken c w) as [[[[rd er]|q] c1] w1] eqn:R;
      apply read_frame in R; destruct R as (R & _).
    + unfold decrPipelined, bind at 1, modify. intros H Hn Hc.
      apply IH in H; cbn [pc set_pipelinedCommands] in *;
        rewrite R in *; rewrite GoIntFacts.decr_small in * by lia; lia.
    + intros [= <- <- <-] _ _. lia.
  - unfold ret. intros [= <- <- <-] _ _. lia.
Qed.

Lemma getAll_counter (expect : list Z) (c : connection) (w : World) :
  forall o c' w', getAll expect c w = (o, c', w') ->
    GoInt.min_int <= match expect with n :: _ => n | [] => 0 end ->
    pc c <= GoInt.max_int ->
    pc c' <= pc c /\
    Z.min (match expect with n :: _ => n | [] => 0 end) (pc c) <= pc c'.
Proof.
  intros o c' w'. unfold getAll.
  set (num := match expect with n :: _ => n | [] => 0 end).
  destruct (flush_cases c w) as [[_ E]|[(p & w1 & _ & _ & E)|(p & e & w1 & _ & _ & E)]].
  - erewrite bind_panics by exact E. intros [= <- <- <-]. lia.
  - erewrite bind_returns by exact E. unfold bind at 1, get. unfold bind.
    destruct (getAll_loop _ num [] c w1) as [[[r|q] c2] w2] eqn:L;
      intros H Hn Hc; apply getAll_loop_counter in L; try assumption.
    + destruct r; unfold ret in H; injection H as <- <- <-; exact L.
    + injection H as <- <- <-. exact L.
  - erewrite bind_returns by exact E. unfold ret. intros [= <- <- <-]. cbn. lia.
Qed.

(** One call keeps the counter between zero and the largest [int] when the
    counter admits it. *)
Lemma exec_keeps_counter (o : op) (c : connection) (w : World) :
  forall r c' w', exec o c w = (r, c', w') ->
    admits o c -> 0 <= pc c <= GoInt.max_int -> 0 <= pc c' <= GoInt.max_int.
Proof.
  intros r c' w' E Ha Hc.
  assert (Hmin : GoInt.min_int < 0) by (vm_compute; reflexivity).
  destruct o as [cmd args| |expect|]; cbn [exec admits] in *; unfold bind in E.
  - destruct (sendCommand cmd args c w) as [[[x|q] c1] w1] eqn:S;
      unfold ret in E; injection E as <- <- <-;
      apply sendRaw_cases in S;
      destruct S as [(_ & S & _)|(_ & S)]; rewrite S;
      try rewrite GoIntFacts.incr_small; lia.
  - destruct (getOne c w) as [[[x|q] c1] w1] eqn:S;
      unfold ret in E; injection E as <- <- <-;
      apply getOne_counter in S; destruct S as [S|S]; rewrite S;
      try rewrite GoIntFacts.decr_small; lia.
  - destruct (getAll expect c w) as [[[x|q] c1] w1] eqn:S;
      unfold ret in E; injection E as <- <- <-;
      apply getAll_counter in S; lia.
  - destruct (getObjectMultiBulkReply c w) as [[[x|q] c1] w1] eqn:S;
      unfold ret in E; injection E as <- <- <-;
      apply getObjectMultiBulkReply_counter in S; destruct S as [S|S]; rewrite S;
      try rewrite GoIntFacts.decr_small; lia.
Qed.

(** C2, as the code has it.  Along any sequence of [sendCommand], [getOne],
    [getAll] and [getObjectMultiBulkReply] calls in which every single read
    finds at least one command outstanding, every drain has a target that is
    not negative, and every send finds the counter below the largest [int],
    the counter is never negative, whether reads and flushes fail or not. *)
Theorem counter_never_negative (ops : list op) :
  forall (c : connection) (w : World),
    0 <= pc c <= GoInt.max_int -> matched ops c w ->
    Forall (fun c' => 0 <= pc c' <= GoInt.max_int) (run ops c w).
Proof.
  induction ops as [|o ops IH]; intros c w Hc Hm; cbn [run matched] in *.
  - constructor.
  - destruct Hm as [Ha Hm].
    destruct (exec o c w) as [[[x|q] c1] w1] eqn:E;
      pose proof (exec_keeps_counter _ _ _ E Ha Hc) as Hc1.
    + constructor; [exact Hc1|]. apply IH; assumption.
    + constructor; [exact Hc1|constructor].
Qed.
End CounterFacts.

(** ** Draining *)

Section DrainFacts.
Context {T : Transport}.

#[local] Abbreviation pc := pipelinedCommands.

Lemma set_pipelinedCommands_same (n : Z) (c : connection) :
  n = pc c -> set_pipelinedCommands n c = c.
Proof. intros ->. now destruct c. Qed.

Lemma set_pipelinedCommands_twice (n m : Z) (c : connection) :
  set_pipelinedCommands n (set_pipelinedCommands m c) = set_pipelinedCommands n c.
Proof. reflexivity. Qed.

(** The three ways a read can go. *)
Lemma read_cases (c : connection) (w : World) :
  (broken c = true /\
   readProtocolWithCheckingBroken c w =
     (Returns (VNil, Some (ConnectError "attempting to read from a broken connection")),
      c, w)) \/
  (broken c = false /\ proto c = None /\
   readProtocolWithCheckingBroken c w = (Panics NilDereference, c, w)) \/
  (exists p rd er w1,
     broken c = false /\ proto c = Some p /\ protocol_read p w = ((rd, er), w1) /\
     readProtocolWithCheckingBroken c w =
       (Returns (match er with Some _ => VNil | None => rd end, er),
        if is_ConnectError er then set_broken true c else c, w1)).
Proof.
  unfold readProtocolWithCheckingBroken, the_protocol. go_unfold.
  destruct (broken c) eqn:Hb; [left; auto|right].
  destruct (proto c) as [p|] eqn:Hp; [right|left; auto].
  destruct (protocol_read p w) as [[rd er] w1] eqn:R.
  exists p, rd, er, w1. repeat split; try assumption.
  destruct er as [[m|m|m]|]; reflexivity.
Qed.

(** With streams in place the loop runs out of work before it runs out of
    fuel, and stores one entry per turn. *)
Lemma getAll_loop_length (n : nat) :
  forall fuel num all c w p,
    proto c = Some p -> pc c = num + Z.of_nat n ->
    GoInt.min_int <= num -> pc c <= GoInt.max_int -> (n <= fuel)%nat ->
    exists all' c' w',
      getAll_loop fuel num all c w = (Returns (Some (all ++ all')), c', w') /\
      List.length all' = n /\ pc c' = num.
Proof.
  induction n as [|n IH]; intros fuel num all c w p Hp Hpc Hn Hc Hf.
  - exists [], c, w.
    destruct fuel; cbn [getAll_loop]; unfold bind, get, ret;
      (destruct (Z.gtb_spec (pc c) num); [lia|]);
      rewrite app_nil_r; repeat split; lia.
  - destruct fuel as [|fuel]; [lia|]. cbn [getAll_loop]. unfold bind at 1, get.
    destruct (Z.gtb_spec (pc c) num); [|lia].
    unfold bind at 1.
    destruct (readProtocolWithCheckingBroken c w) as [[[[rd er]|q] c1] w1] eqn:R.
    + pose proof (read_frame _ _ R) as (R1 & R2 & _).
      unfold decrPipelined, bind at 1, modify.
      edestruct (IH fuel num
                   (match er with Some err => all ++ [VError err] | None => all ++ [rd] end)
                   (set_pipelinedCommands (GoInt.decr (pc c1)) c1) w1 p)
        as (all' & c' & w' & E & Hl & Hpc').
      * cbn. congruence.
      * cbn. rewrite R1, GoIntFacts.decr_small; lia.
      * assumption.
      * cbn. rewrite R1, GoIntFacts.decr_small; lia.
      * lia.
      * rewrite E. exists (inline (rd, er) :: all'), c', w'.
        repeat split; [|cbn; lia|assumption].
        destruct er; cbn [inline]; now rewrite <- app_assoc.
    + exfalso.
      destruct (read_cases c w) as [[_ E]|[(_ & E & _)|(? & ? & ? & ? & _ & _ & _ & E)]];
        congruence.
Qed.


End DrainFacts.

(** ** The client: bulk replies, the guard, Close *)

Section RedisFacts.
Context {T : Transport} {P : PoolOps}.

(** A bulk accessor cannot tell the protocol's null from the empty byte
    string. *)
Lemma bulk_of_nil_or_empty (c c' : connection) (w w' : World) (reply : value) :
  getOne c w = (Returns (reply, None), c', w') ->
  reply = VNil \/ reply = VBytes [] ->
  getBinaryBulkReply c w = (Returns ([], None), c', w') /\
  getBulkReply c w = (Returns ("", None), c', w').
Proof.
  intros E Hr.
  assert (B : getBinaryBulkReply c w = (Returns ([], None), c', w')).
  { unfold getBinaryBulkReply. erewrite bind_returns by exact E.
    destruct Hr as [->| ->]; reflexivity. }
  split; [exact B|].
  unfold getBulkReply. erewrite bind_returns by exact B. reflexivity.
Qed.

Lemma on_client_returns {A} (m : M connection A) (r : Redis) (w : World)
      (cl : client) (o : outcome A) (c' : connection) (w' : World) :
  r_client r = Some cl -> m (conn cl) w = (o, c', w') ->
  on_client m r w = (o, set_client (Some (set_conn c' cl)) r, w').
Proof. intros Hc E. unfold on_client. now rewrite Hc, E. Qed.

(** C10.  When the reply decoded for a bulk accessor is nil, the accessor
    returns the empty byte slice, [getBulkReply] the empty string, both with
    a nil error; the reply that is the empty byte string gives the same.  So
    [Redis.Get] returns the empty string and a nil error, and leaves the same
    client and world, for a key that is absent and for a key that holds the
    empty string. *)
Theorem Get_conflates_nil_and_empty (key : string) (r : Redis) (w : World)
        (cl : client) (c1 c2 : connection) (w1 w2 : World) (reply : value) :
  r_client r = Some cl ->
  checkIsInMultiOrPipeline r w = (Returns None, r, w) ->
  client_get key (conn cl) w = (Returns None, c1, w1) ->
  getOne c1 w1 = (Returns (reply, None), c2, w2) ->
  reply = VNil \/ reply = VBytes [] ->
  getBinaryBulkReply c1 w1 = (Returns ([], None), c2, w2) /\
  getBulkReply c1 w1 = (Returns ("", None), c2, w2) /\
  Get key r w = (Returns ("", None), set_client (Some (set_conn c2 cl)) r, w2).
Proof.
  intros Hc Hg Hs Hr Hv.
  edestruct bulk_of_nil_or_empty as [B S]; [exact Hr|exact Hv|].
  repeat split; try assumption.
  unfold Get, guarded.
  erewrite bind_returns by exact Hg. cbv beta iota.
  erewrite bind_returns by (apply on_client_returns; eassumption). cbv beta iota.
  erewrite on_client_returns with (cl := set_conn c1 cl);
    [reflexivity|reflexivity|exact S].
Qed.

(** The guard reads the client's mode and the pipeline's queue, and nothing
    else moves. *)
Lemma check_rejects (r : Redis) (w : World) (cl : client) :
  r_client r = Some cl ->
  isInMulti cl = true \/
  (exists p, r_pipeline r = Some p /\ pipelinedResponses p <> []) ->
  exists msg, checkIsInMultiOrPipeline r w = (Returns (Some (DataError msg)), r, w).
Proof.
  intros Hc H. unfold checkIsInMultiOrPipeline. go_unfold. rewrite Hc.
  destruct (isInMulti cl) eqn:Hm; [eexists; reflexivity|].
  destruct H as [H|(p & Hp & Hq)]; [discriminate|].
  rewrite Hp. destruct (pipelinedResponses p) as [|x q]; [congruence|].
  cbn [List.length]. rewrite Nat2Z.inj_succ.
  destruct (Z.gtb_spec (Z.succ (Z.of_nat (List.length q))) 0); [|lia].
  eexists; reflexivity.
Qed.

(** Every method built on the guard returns the data error before anything
    is sent: the client, its connection and the world are as they were. *)
Lemma guarded_rejects {A} (zero : A) (send : M connection (option error))
      (reply : M connection (A * option error)) (r : Redis) (w : World)
      (cl : client) :
  r_client r = Some cl ->
  isInMulti cl = true \/
  (exists p, r_pipeline r = Some p /\ pipelinedResponses p <> []) ->
  exists msg, guarded zero send reply r w = (Returns (zero, Some (DataError msg)), r, w).
Proof.
  intros Hc H. edestruct check_rejects with (w := w) as [msg E]; [exact Hc|exact H|].
  exists msg. unfold guarded. erewrite bind_returns by exact E. reflexivity.
Qed.

(** C5.  [Close] on a client with no pool closes the socket the connection
    holds and forgets it; on a client with a pool it is the pool's
    [returnBrokenResourceObject] when the connection is broken and
    [returnResourceObject] when it is not, and nothing else: the socket is
    not closed by [Close]. *)
Theorem Close_routes_by_pool (r : Redis) (w : World) (cl : client) :
  r_client r = Some cl ->
  (r_dataSource r = None ->
   forall s err w', socket (conn cl) = Some s -> conn_Close s w = (err, w') ->
     Close (Some r) w =
       (Returns err,
        Some (set_client (Some (set_conn (set_socket None (conn cl)) cl)) r), w')) /\
  (forall pool, r_dataSource r = Some pool -> broken (conn cl) = true ->
     Close (Some r) w =
       let '(o, r', w') := returnBrokenResourceObject pool r w in (o, Some r', w')) /\
  (forall pool, r_dataSource r = Some pool -> broken (conn cl) = false ->
     Close (Some r) w =
       let '(o, r', w') := returnResourceObject pool r w in (o, Some r', w')).
Proof.
  intros Hc. repeat split.
  - intros Hd s err w' Hs Hx. unfold Close. rewrite Hd, Hc.
    erewrite on_client_returns; [reflexivity|exact Hc|].
    unfold close. go_unfold. now rewrite Hs, Hx.
  - intros pool Hd Hb. unfold Close. now rewrite Hd, Hc, Hb.
  - intros pool Hd Hb. unfold Close. now rewrite Hd, Hc, Hb.
Qed.
End RedisFacts.

(** ** Runs on the scripted transport *)

Module SimRuns.
#[local] Existing Instance Sim.transport.
#[local] Existing Instance Sim.constants.
#[local] Existing Instance Sim.pool.

Lemma connect_idempotent_witness :
  socket (Sim.live 0 false) = Some 1%nat /\
  connect (Sim.live 0 false) (Sim.quiet []) =
    (Returns None, Sim.live 0 false, Sim.quiet []).
Proof.
  split; [reflexivity|].
  apply (@connect_idempotent Sim.transport (Sim.live 0 false) (Sim.quiet []) 1%nat).
  reflexivity.
Defined.

Lemma newConnection_defaults_witness :
  host (newConnection "" 0 0 250) = "localhost" /\
  port (newConnection "" 0 0 250) = 6379 /\
  connectionTimeout (newConnection "" 0 0 250) = 5000000000 /\
  soTimeout (newConnection "" 0 0 250) = 250.
Proof.
  destruct (@newConnection_defaults Sim.constants "" 0 0 250)
    as (Hh & _ & Hp & _ & Hc & _ & _ & Hs & _).
  split; [|split; [|split]].
  - apply Hh. reflexivity.
  - apply Hp. reflexivity.
  - apply Hc. reflexivity.
  - apply Hs. discriminate.
Defined.

Lemma read_fenced_when_broken_witness :
  broken (Sim.live 1 true) = true /\
  fails_fast readProtocolWithCheckingBroken snd
             (Sim.live 1 true) (Sim.quiet [(VString "OK", None)]).
Proof.
  split; [reflexivity|].
  apply (@read_fenced_when_broken Sim.transport). reflexivity.
Defined.

(** C1, as stated, fails.  On a broken connection that still holds its
    socket, [sendCommand] hands the command to the encoder, counts it and
    returns nil, and [flush] flushes the output stream and returns nil:
    neither fails at once. *)
Lemma send_and_flush_ignore_broken :
  broken (Sim.live 0 true) = true /\
  sendCommand cmdSet [] (Sim.live 0 true) (Sim.quiet []) =
    (Returns None, Sim.live 1 true,
     Sim.mkWorld true [] [Sim.Encode (getRaw cmdSet) []]) /\
  flush (Sim.live 0 true) (Sim.quiet []) =
    (Returns None, Sim.live 0 true, Sim.mkWorld true [] [Sim.Flush 1%nat]) /\
  ~ fails_fast (sendCommand cmdSet []) (fun err => err)
      (Sim.live 0 true) (Sim.quiet []) /\
  ~ fails_fast flush (fun err => err) (Sim.live 0 true) (Sim.quiet []).
Proof.
  repeat split; try (vm_compute; reflexivity).
  - intros (a & msg & E & _). vm_compute in E. discriminate E.
  - intros (a & msg & E & _). vm_compute in E. discriminate E.
Qed.

Lemma sendCommand_atomic_witness :
  socket Sim.fresh = None /\
  sendCommand cmdGet [StrToBytes "k"] Sim.fresh Sim.down =
    (Returns (Some (ConnectError "connection refused")), Sim.fresh,
     Sim.mkWorld false [] [Sim.Dial "localhost" 6379]).
Proof.
  split; [reflexivity|].
  destruct (@sendCommand_atomic Sim.transport cmdGet [StrToBytes "k"]
              Sim.fresh Sim.down) as [H _].
  apply (H (NetError "connection refused")); reflexivity.
Defined.

(** C2, as stated, fails.  One command is sent on a new connection and read;
    a second [getOne], with nothing outstanding, flushes, takes the counter
    to -1 and only then reads. *)
Lemma counter_goes_negative :
  map pipelinedCommands (run Sim.unmatched_read Sim.fresh (Sim.quiet [(VNil, None)]))
    = [1; 0; -1] /\
  ~ Forall (fun c => 0 <= pipelinedCommands c)
      (run Sim.unmatched_read Sim.fresh (Sim.quiet [(VNil, None)])).
Proof.
  split; [vm_compute; reflexivity|].
  intros H. rewrite Forall_forall in H.
  specialize (H (nth 2 (run Sim.unmatched_read Sim.fresh (Sim.quiet [(VNil, None)]))
                     Sim.fresh)).
  vm_compute in H. apply H; [|reflexivity]. right. right. left. reflexivity.
Qed.

Lemma counter_never_negative_witness :
  Forall (fun c => 0 <= pipelinedCommands c <= GoInt.max_int)
         (run Sim.matched_reads Sim.fresh (Sim.quiet [(VInt64 1, None); (VInt64 2, None)])).
Proof.
  apply (@counter_never_negative Sim.transport Sim.matched_reads).
  - vm_compute. split; discriminate.
  - cbn [matched Sim.matched_reads]. vm_compute. repeat split; discriminate.
Defined.


Lemma Get_conflates_nil_and_empty_witness :
  Get "k" (Sim.redis false None false) (Sim.quiet [(VNil, None)]) =
    (Returns ("", None), Sim.redis false None false,
     Sim.mkWorld true []
       [Sim.Read 1%nat; Sim.Flush 1%nat; Sim.Encode (getRaw cmdGet) [StrToBytes "k"]]) /\
  fst (fst (Get "k" (Sim.redis false None false) (Sim.quiet [(VBytes [], None)]))) =
    Returns ("", None).
Proof.
  split.
  - edestruct (@Get_conflates_nil_and_empty Sim.transport "k"
                (Sim.redis false None false) (Sim.quiet [(VNil, None)]))
      as (_ & _ & H).
    + reflexivity.
    + reflexivity.
    + reflexivity.
    + reflexivity.
    + left. reflexivity.
    + exact H.
  - edestruct (@Get_conflates_nil_and_empty Sim.transport "k"
                (Sim.redis false None false) (Sim.quiet [(VBytes [], None)]))
      as (_ & _ & H).
    + reflexivity.
    + reflexivity.
    + reflexivity.
    + reflexivity.
    + right. reflexivity.
    + rewrite H. reflexivity.
Defined.

Lemma Close_routes_by_pool_witness :
  Close (Some (Sim.redis false None false)) (Sim.quiet []) =
    (Returns None,
     Some (mkRedis (Some (mkClient (set_socket None (Sim.live 0 false)) false)) None None),
     Sim.mkWorld true [] [Sim.CloseConn 1%nat]) /\
  Close (Some (Sim.redis false (Some 4%nat) true)) (Sim.quiet []) =
    (Returns None, Some (Sim.redis false (Some 4%nat) true),
     Sim.mkWorld true [] [Sim.ReturnBroken 4%nat]) /\
  Close (Some (Sim.redis false (Some 4%nat) false)) (Sim.quiet []) =
    (Returns None, Some (Sim.redis false (Some 4%nat) false),
     Sim.mkWorld true [] [Sim.ReturnHealthy 4%nat]).
Proof.
  split; [|split].
  - edestruct (@Close_routes_by_pool Sim.transport Sim.pool
                (Sim.redis false None false) (Sim.quiet [])) as (H & _ & _).
    + reflexivity.
    + apply (H eq_refl 1%nat None (Sim.mkWorld true [] [Sim.CloseConn 1%nat]));
        reflexivity.
  - edestruct (@Close_routes_by_pool Sim.transport Sim.pool
                (Sim.redis false (Some 4%nat) true) (Sim.quiet [])) as (_ & H & _).
    + reflexivity.
    + apply (H 4%nat); reflexivity.
  - edestruct (@Close_routes_by_pool Sim.transport Sim.pool
                (Sim.redis false (Some 4%nat) false) (Sim.quiet [])) as (_ & _ & H).
    + reflexivity.
    + apply (H 4%nat); reflexivity.
Defined.


(** C4 at [BitCount].  On a client that is inside MULTI, [Incr] returns the
    data error and nothing moves, while [BitCount] encodes its command,
    flushes, reads the next reply and returns it with a nil error. *)
Theorem BitCount_sends_in_multi :
  Incr "n" (Sim.redis true None false) (Sim.quiet [(VString "QUEUED", None)]) =
    (Returns (0, Some (DataError
       "cannot use Redis when in Multi. Please use Transaction or reset redis state")),
     Sim.redis true None false, Sim.quiet [(VString "QUEUED", None)]) /\
  BitCount "k" (Sim.redis true None false) (Sim.quiet [(VString "QUEUED", None)]) =
    (Returns (-1, None), Sim.redis true None false,
     Sim.mkWorld true []
       [Sim.Read 1%nat; Sim.Flush 1%nat;
        Sim.Encode (getRaw cmdBitcount) [StrToBytes "k"]]).
Proof. split; vm_compute; reflexivity. Qed.
End SimRuns.

(** ** What no method of a connection undoes *)

Section Invariants.
Context {T : Transport}.

Lemma evolves_refl (c : connection) : evolves c c.
Proof. constructor; auto. Qed.

Lemma evolves_trans (c1 c2 c3 : connection) :
  evolves c1 c2 -> evolves c2 c3 -> evolves c1 c3.
Proof.
  intros [] []. constructor; try congruence; auto.
Qed.

Lemma evolves_set_broken (c : connection) : evolves c (set_broken true c).
Proof. constructor; auto. Qed.

Lemma evolves_set_pipelinedCommands (n : Z) (c : connection) :
  evolves c (set_pipelinedCommands n c).
Proof. constructor; auto. Qed.

Lemma evolves_set_socket_None (c : connection) : evolves c (set_socket None c).
Proof. constructor; cbn; auto; congruence. Qed.

Lemma preserves_ret {A} (a : A) : preserves evolves (ret a).
Proof. intros c w o c' w' [= <- <- <-]. apply evolves_refl. Qed.

Lemma preserves_get : preserves evolves get.
Proof. intros c w o c' w' [= <- <- <-]. apply evolves_refl. Qed.

Lemma preserves_raise {A} (p : panic) : preserves evolves (raise (A := A) p).
Proof. intros c w o c' w' [= <- <- <-]. apply evolves_refl. Qed.

Lemma preserves_io {A} (f : World -> A * World) : preserves evolves (io f).
Proof.
  intros c w o c' w'. unfold io. destruct (f w). intros [= <- <- <-].
  apply evolves_refl.
Qed.

Lemma preserves_modify (f : connection -> connection) :
  (forall c, evolves c (f c)) -> preserves evolves (modify f).
Proof. intros Hf c w o c' w' [= <- <- <-]. apply Hf. Qed.

Lemma preserves_bind {A B} (m : M connection A) (k : A -> M connection B) :
  preserves evolves m -> (forall a, preserves evolves (k a)) ->
  preserves evolves (bind m k).
Proof.
  intros Hm Hk c w o c' w'. unfold bind.
  destruct (m c w) as [[[a|p] c1] w1] eqn:E.
  - intros E'. eapply evolves_trans; [eapply Hm, E|eapply Hk, E'].
  - intros [= <- <- <-]. eapply Hm, E.
Qed.

Create HintDb keeps.

Ltac keeps :=
  repeat first
    [ apply preserves_ret
    | apply preserves_get
    | apply preserves_raise
    | apply preserves_io
    | apply preserves_modify; intros;
      first [ apply evolves_set_broken
            | apply evolves_set_pipelinedCommands
            | apply evolves_set_socket_None ]
    | assumption
    | solve [auto with keeps nocore]
    | apply preserves_bind; [ | intros ? ]
    | match goal with
      | |- preserves _ (match ?x with _ => _ end) => destruct x
      | |- preserves _ (if ?x then _ else _) => destruct x
      end
    | progress cbv zeta ].

Lemma connect_evolves : preserves evolves connect.
Proof.
  intros c w o c' w'. unfold connect, isConnected. go_unfold.
  destruct (socket c) as [s|] eqn:Hs.
  - intros [= <- <- <-]. apply evolves_refl.
  - destruct (net_DialTimeout (host c) (port c) (connectionTimeout c) w)
      as [[s|e] w1].
    + destruct (conn_SetDeadline s (Some (soTimeout c)) w1) as [[e|] w2];
        intros [= <- <- <-]; [apply evolves_refl|].
      constructor; cbn; auto; discriminate.
    + intros [= <- <- <-]. apply evolves_refl.
Qed.
#[local] Hint Resolve connect_evolves : keeps.

Lemma isConnected_evolves : preserves evolves isConnected.
Proof. unfold isConnected. keeps. Qed.
#[local] Hint Resolve isConnected_evolves : keeps.

Lemma the_protocol_evolves : preserves evolves the_protocol.
Proof. unfold the_protocol. keeps. Qed.
#[local] Hint Resolve the_protocol_evolves : keeps.

Lemma the_socket_evolves : preserves evolves the_socket.
Proof. unfold the_socket. keeps. Qed.
#[local] Hint Resolve the_socket_evolves : keeps.

Lemma setTimeoutInfinite_evolves : preserves evolves setTimeoutInfinite.
Proof. unfold setTimeoutInfinite. keeps. Qed.
#[local] Hint Resolve setTimeoutInfinite_evolves : keeps.

Lemma rollbackTimeout_evolves : preserves evolves rollbackTimeout.
Proof. unfold rollbackTimeout. keeps. Qed.
#[local] Hint Resolve rollbackTimeout_evolves : keeps.

Lemma sendRaw_evolves raw args : preserves evolves (sendRaw raw args).
Proof.
  unfold sendRaw, incrPipelined. keeps.
Qed.
#[local] Hint Resolve sendRaw_evolves : keeps.

Lemma read_evolves : preserves evolves readProtocolWithCheckingBroken.
Proof. unfold readProtocolWithCheckingBroken. keeps. Qed.
#[local] Hint Resolve read_evolves : keeps.

Lemma flush_evolves : preserves evolves flush.
Proof. unfold flush. keeps. Qed.
#[local] Hint Resolve flush_evolves : keeps.

Lemma getOne_evolves : preserves evolves getOne.
Proof.
  unfold getOne, decrPipelined. keeps.
Qed.
#[local] Hint Resolve getOne_evolves : keeps.

Lemma getAll_loop_evolves (fuel : nat) (num : Z) :
  forall all, preserves evolves (getAll_loop fuel num all).
Proof.
  induction fuel as [|fuel IH]; intros all; cbn [getAll_loop];
    unfold decrPipelined; keeps; apply IH.
Qed.
#[local] Hint Resolve getAll_loop_evolves : keeps.

Lemma getAll_evolves expect : preserves evolves (getAll expect).
Proof.
  unfold getAll. keeps.
Qed.
#[local] Hint Resolve getAll_evolves : keeps.

Lemma close_evolves : preserves evolves close.
Proof. unfold close. keeps. Qed.
#[local] Hint Resolve close_evolves : keeps.

(** Every method of the connection keeps what [evolves] lists. *)
Lemma call_evolves (m : method) : preserves evolves (call m).
Proof.
  destruct m; cbn [call];
    unfold resetPipelinedCount, sendCommand, sendCommandByStr,
      getStatusCodeReply, getBulkReply, getBinaryBulkReply, getIntegerReply,
      getMultiBulkReply, getBinaryMultiBulkReply, getRawObjectMultiBulkReply,
      getObjectMultiBulkReply, getUnflushedObjectMultiBulkReply,
      getIntegerMultiBulkReply, decrPipelined;
    keeps.
Qed.

Lemma history_evolves (ms : list method) :
  forall c w, Forall (evolves c) (history ms c w).
Proof.
  induction ms as [|m ms IH]; intros c w; cbn [history]; [constructor|].
  destruct (call m c w) as [[[x|p] c1] w1] eqn:E;
    assert (H1 : evolves c c1) by (eapply call_evolves; exact E).
  - constructor; [exact H1|].
    eapply Forall_impl; [|apply IH]. intros c2. now apply evolves_trans.
  - constructor; [exact H1|constructor].
Qed.

(** X1.  The broken flag is sticky: whatever methods are called on a
    connection that is broken, in whatever order and with whatever answers
    from the network, it is broken after each of them. *)
Theorem broken_is_sticky (ms : list method) (c : connection) (w : World) :
  broken c = true -> Forall (fun c' => broken c' = true) (history ms c w).
Proof.
  intros Hb. eapply Forall_impl; [|apply history_evolves].
  intros c' H. now apply (ev_broken H).
Qed.

(** X2.  No method changes the settings a connection was built with: host,
    port and both timeouts are the same after every call of every
    sequence. *)
Theorem settings_never_change (ms : list method) (c : connection) (w : World) :
  Forall (fun c' => host c' = host c /\ port c' = port c /\
                    connectionTimeout c' = connectionTimeout c /\
                    soTimeout c' = soTimeout c)
         (history ms c w).
Proof.
  eapply Forall_impl; [|apply history_evolves].
  intros c' []. auto.
Qed.
End Invariants.

(** ** Connecting, sending and closing *)

Section LifeCycle.
Context {K : Constants} {T : Transport}.

#[local] Abbreviation pc := pipelinedCommands.
#[local] Abbreviation streams_of conn :=
  (newProtocol (newRedisOutputStream conn) (newRedisInputStream conn)).

Lemma connect_outcomes (c : connection) (w : World) :
  forall o c' w', connect c w = (o, c', w') ->
    (socket c <> None /\ o = Returns None /\ c' = c /\ w' = w) \/
    (socket c = None /\ c' = c /\
     exists msg, o = Returns (Some (ConnectError msg))) \/
    (socket c = None /\ o = Returns None /\
     exists conn, c' = set_proto (Some (streams_of conn)) (set_socket (Some conn) c)).
Proof.
  intros o c' w'. unfold connect, isConnected. go_unfold.
  destruct (socket c) as [s|] eqn:Hs.
  - intros [= <- <- <-]. left. repeat split. discriminate.
  - destruct (net_DialTimeout (host c) (port c) (connectionTimeout c) w)
      as [[s|e] w1].
    + destruct (conn_SetDeadline s (Some (soTimeout c)) w1) as [[e|] w2];
        cbn; intros [= <- <- <-]; right.
      * left. repeat split. eauto.
      * right. repeat split. eauto.
    + intros [= <- <- <-]. right. left. repeat split. eauto.
Qed.

(** X3.  [connect] is all or nothing.  It returns nil and changes nothing
    when there is a socket; it returns nil with the new socket and streams
    built on that socket installed together; or it returns a connection
    error and leaves the connection exactly as it was, also when the dial
    went through and only the deadline could not be set. *)
Theorem connect_all_or_nothing (c : connection) (w : World) :
  forall o c' w', connect c w = (o, c', w') ->
    (socket c <> None /\ o = Returns None /\ c' = c /\ w' = w) \/
    (socket c = None /\ c' = c /\
     exists msg, o = Returns (Some (ConnectError msg))) \/
    (socket c = None /\ o = Returns None /\
     exists conn, c' = set_proto (Some (streams_of conn)) (set_socket (Some conn) c)).
Proof. apply connect_outcomes. Qed.

Lemma sendRaw_returns (raw : list byte) (args : list (list byte))
      (c : connection) (w : World) :
  coupled c -> exists e c' w', sendRaw raw args c w = (Returns e, c', w').
Proof.
  intros Hc. unfold sendRaw.
  destruct (connect c w) as [[o c1] w1] eqn:E.
  assert (Hp : o = Returns None -> proto c1 <> None).
  { destruct (connect_outcomes _ _ E)
      as [(Hs & _ & -> & _)|[(_ & _ & msg & ->)|(_ & _ & conn & ->)]].
    - intros _. now apply Hc.
    - discriminate.
    - intros _. discriminate. }
  destruct (connect_cases c w) as (o' & c1' & w1' & E' & _).
  rewrite E in E'. injection E' as -> <- <-.
  erewrite bind_returns by exact E.
  destruct o' as [e|]; [unfold ret; eauto|].
  unfold the_protocol, incrPipelined. go_unfold.
  destruct (proto c1) as [p|]; [|now destruct Hp].
  destruct (protocol_sendCommand p raw args w1) as [[e|] w2]; eauto.
Qed.

(** X4.  On a connection made by [newConnection], after any sequence of
    method calls, [sendCommand] returns: it never ends in a panic, because a
    socket is never there without its streams. *)
Theorem sendCommand_never_panics (ms : list method) (h : string) (p ct st : Z)
        (w : World) (cmd : protocolCommand) (args : list (list byte)) :
  Forall (fun c => forall w1, exists e c' w',
            sendCommand cmd args c w1 = (Returns e, c', w'))
         (newConnection h p ct st :: history ms (newConnection h p ct st) w).
Proof.
  assert (H0 : coupled (newConnection h p ct st)) by (intros H; now destruct H).
  constructor.
  - intros w1. now apply sendRaw_returns.
  - eapply Forall_impl; [|apply history_evolves].
    intros c H w1. apply sendRaw_returns. exact (ev_coupled H H0).
Qed.

(** X5.  Before the first connect there are no streams, and then flushing
    or reading anything is a nil dereference: [flush], [getOne], [getAll],
    [getObjectMultiBulkReply] and every typed accessor built on [getOne]
    panic, having touched neither the connection nor the network. *)
Theorem reads_before_connect_panic (c : connection) (w : World) (expect : list Z) :
  proto c = None ->
  flush c w = (Panics NilDereference, c, w) /\
  getOne c w = (Panics NilDereference, c, w) /\
  getAll expect c w = (Panics NilDereference, c, w) /\
  getObjectMultiBulkReply c w = (Panics NilDereference, c, w) /\
  getStatusCodeReply c w = (Panics NilDereference, c, w) /\
  getBulkReply c w = (Panics NilDereference, c, w) /\
  getBinaryBulkReply c w = (Panics NilDereference, c, w) /\
  getIntegerReply c w = (Panics NilDereference, c, w) /\
  getMultiBulkReply c w = (Panics NilDereference, c, w) /\
  getBinaryMultiBulkReply c w = (Panics NilDereference, c, w) /\
  getIntegerMultiBulkReply c w = (Panics NilDereference, c, w).
Proof.
  intros Hp.
  assert (F : flush c w = (Panics NilDereference, c, w)).
  { unfold flush, the_protocol. go_unfold. now rewrite Hp. }
  assert (G : getOne c w = (Panics NilDereference, c, w)).
  { unfold getOne. now erewrite bind_panics by exact F. }
  assert (B : getBinaryBulkReply c w = (Panics NilDereference, c, w)).
  { unfold getBinaryBulkReply. now erewrite bind_panics by exact G. }
  assert (MB : getBinaryMultiBulkReply c w = (Panics NilDereference, c, w)).
  { unfold getBinaryMultiBulkReply. now erewrite bind_panics by exact G. }
  repeat split; try assumption.
  - unfold getAll. now erewrite bind_panics by exact F.
  - unfold getObjectMultiBulkReply. now erewrite bind_panics by exact F.
  - unfold getStatusCodeReply. now erewrite bind_panics by exact G.
  - unfold getBulkReply. now erewrite bind_panics by exact B.
  - unfold getIntegerReply. now erewrite bind_panics by exact G.
  - unfold getMultiBulkReply. now erewrite bind_panics by exact MB.
  - unfold getIntegerMultiBulkReply. now erewrite bind_panics by exact G.
Qed.

Lemma close_outcomes (c : connection) (w : World) :
  forall o c' w', close c w = (o, c', w') ->
    c' = set_socket None c /\
    (forall s e w1, socket c = Some s -> conn_Close s w = (e, w1) ->
       o = Returns e /\ w' = w1) /\
    (socket c = None -> o = Returns None /\ w' = w) /\
    close c' w' = (Returns None, c', w').
Proof.
  intros o c' w'. unfold close. go_unfold.
  destruct (socket c) as [s|] eqn:Hs.
  - destruct (conn_Close s w) as [e w1] eqn:Hc. intros [= <- <- <-].
    split; [reflexivity|]. split; [|split; [discriminate|reflexivity]].
    intros s' e' w1' [= <-] E. rewrite Hc in E. now injection E as <- <-.
  - intros [= <- <- <-]. rewrite Hs.
    repeat split; try discriminate.
    destruct c; cbn in *; now subst.
Qed.

(** X6.  [close] always leaves the connection without a socket, whatever the
    socket's [Close] answered; that answer is returned as it is, and the
    streams, the broken flag and the counter are kept.  Closing again
    returns nil and touches nothing. *)
Theorem close_forgets_socket (c : connection) (w : World) :
  forall o c' w', close c w = (o, c', w') ->
    c' = set_socket None c /\
    (forall s e w1, socket c = Some s -> conn_Close s w = (e, w1) ->
       o = Returns e /\ w' = w1) /\
    (socket c = None -> o = Returns None /\ w' = w) /\
    close c' w' = (Returns None, c', w').
Proof. apply close_outcomes. Qed.

(** X7.  [sendCommand] connects lazily: with no socket, when the dial, the
    deadline and the encoder all succeed, it returns nil and leaves the new
    socket, streams built on it, and one more outstanding command. *)
Theorem sendCommand_connects_lazily (cmd : protocolCommand)
        (args : list (list byte)) (c : connection) (w w1 w2 w3 : World)
        (conn : net_Conn) :
  socket c = None ->
  net_DialTimeout (host c) (port c) (connectionTimeout c) w = (inl conn, w1) ->
  conn_SetDeadline conn (Some (soTimeout c)) w1 = (None, w2) ->
  protocol_sendCommand (streams_of conn) (getRaw cmd) args w2 = (None, w3) ->
  sendCommand cmd args c w =
    (Returns None,
     mkConnection (host c) (port c) (connectionTimeout c) (soTimeout c)
                  (Some conn) (Some (streams_of conn)) (broken c)
                  (GoInt.incr (pc c)),
     w3).
Proof.
  intros Hs Hd Hl He.
  unfold sendCommand, sendRaw, connect, isConnected, the_protocol, incrPipelined.
  go_unfold. rewrite Hs, Hd, Hl. cbn. now rewrite He.
Qed.

(** X8.  [sendCommand] never touches the broken flag.  When the encoder
    fails on a connected connection its error is returned as it is and the
    connection is exactly as before: not marked broken, counter unchanged. *)
Theorem sendCommand_leaves_broken_flag (cmd : protocolCommand)
        (args : list (list byte)) (c : connection) (w : World) :
  (forall o c' w', sendCommand cmd args c w = (o, c', w') -> broken c' = broken c) /\
  (forall s p e w1, socket c = Some s -> proto c = Some p ->
     protocol_sendCommand p (getRaw cmd) args w = (Some e, w1) ->
     sendCommand cmd args c w = (Returns (Some e), c, w1)).
Proof.
  split.
  - intros o c' w'. unfold sendCommand, sendRaw.
    destruct (connect_cases c w) as (oc & c1 & w1 & Hc & _ & Hb & _).
    erewrite bind_returns by exact Hc.
    destruct oc as [e|]; [unfold ret; intros [= <- <- <-]; exact Hb|].
    unfold the_protocol, incrPipelined. go_unfold.
    destruct (proto c1) as [p|]; [|intros [= <- <- <-]; exact Hb].
    destruct (protocol_sendCommand p (getRaw cmd) args w1) as [[e|] w2];
      intros [= <- <- <-]; exact Hb.
  - intros s p e w1 Hs Hp He.
    unfold sendCommand, sendRaw, connect, isConnected, the_protocol.
    go_unfold. now rewrite Hs, Hp, He.
Qed.

(** X9.  When the flush fails, the connection is marked broken and every
    accessor returns its zero value with the flush error wrapped as a
    connection error; nothing is read and the counter is not decreased. *)
Theorem flush_failure_in_accessors (c : connection) (w w1 : World)
        (p : protocol) (e : error) (expect : list Z) :
  proto c = Some p -> os_flush (os p) w = (Some e, w1) ->
  let err := Some (ConnectError (Error e)) in
  let c' := set_broken true c in
  flush c w = (Returns err, c', w1) /\
  getOne c w = (Returns (VString "", err), c', w1) /\
  getAll expect c w = (Returns (Some (VNil, err)), c', w1) /\
  getObjectMultiBulkReply c w = (Returns ([], err), c', w1) /\
  getStatusCodeReply c w = (Returns ("", err), c', w1) /\
  getBulkReply c w = (Returns ("", err), c', w1) /\
  getBinaryBulkReply c w = (Returns ([], err), c', w1) /\
  getIntegerReply c w = (Returns (0, err), c', w1) /\
  getMultiBulkReply c w = (Returns ([], err), c', w1) /\
  getBinaryMultiBulkReply c w = (Returns ([], err), c', w1) /\
  getIntegerMultiBulkReply c w = (Returns ([], err), c', w1).
Proof.
  intros Hp Hf err c'.
  assert (F : flush c w = (Returns err, c', w1)).
  { unfold flush, the_protocol. go_unfold. now rewrite Hp, Hf. }
  assert (G : getOne c w = (Returns (VString "", err), c', w1)).
  { unfold getOne. now erewrite bind_returns by exact F. }
  assert (B : getBinaryBulkReply c w = (Returns ([], err), c', w1)).
  { unfold getBinaryBulkReply. now erewrite bind_returns by exact G. }
  assert (MB : getBinaryMultiBulkReply c w = (Returns ([], err), c', w1)).
  { unfold getBinaryMultiBulkReply. now erewrite bind_returns by exact G. }
  repeat split; try assumption.
  - unfold getAll. now erewrite bind_returns by exact F.
  - unfold getObjectMultiBulkReply. now erewrite bind_returns by exact F.
  - unfold getStatusCodeReply. now erewrite bind_returns by exact G.
  - unfold getBulkReply. now erewrite bind_returns by exact B.
  - unfold getIntegerReply. now erewrite bind_returns by exact G.
  - unfold getMultiBulkReply. now erewrite bind_returns by exact MB.
  - unfold getIntegerMultiBulkReply. now erewrite bind_returns by exact G.
Qed.
End LifeCycle.

(** ** Draining a broken connection, and draining down to a target *)

Section MoreDrainFacts.
Context {T : Transport}.

#[local] Abbreviation pc := pipelinedCommands.
#[local] Abbreviation fence :=
  (ConnectError "attempting to read from a broken connection").

Lemma read_on_broken (c : connection) (w : World) :
  broken c = true ->
  readProtocolWithCheckingBroken c w = (Returns (VNil, Some fence), c, w).
Proof.
  intros Hb. unfold readProtocolWithCheckingBroken. go_unfold. now rewrite Hb.
Qed.

(** X10.  On a broken connection whose streams are in place, [getOne] still
    flushes the output stream and, when that goes through, still takes one
    off the counter; only then does it return the connection error of the
    fence, without calling the decoder. *)
Theorem getOne_on_broken (c : connection) (w w1 : World) (p : protocol) :
  broken c = true -> proto c = Some p -> os_flush (os p) w = (None, w1) ->
  getOne c w =
    (Returns (VNil, Some fence), set_pipelinedCommands (GoInt.decr (pc c)) c, w1).
Proof.
  intros Hb Hp Hf.
  assert (F : flush c w = (Returns None, c, w1)).
  { unfold flush, the_protocol. go_unfold. now rewrite Hp, Hf. }
  unfold getOne. erewrite bind_returns by exact F.
  unfold decrPipelined, bind, modify. now rewrite read_on_broken.
Qed.

Lemma getAll_loop_idle (fuel : nat) (num : Z) (all : list value)
      (c : connection) (w : World) :
  pc c <= num -> getAll_loop fuel num all c w = (Returns (Some all), c, w).
Proof.
  intros H. destruct fuel; cbn [getAll_loop]; unfold bind, get, ret;
    destruct (Z.gtb_spec (pc c) num); try lia; reflexivity.
Qed.

Lemma getAll_loop_broken (n : nat) :
  forall fuel num all c w,
    broken c = true -> pc c = num + Z.of_nat n ->
    GoInt.min_int <= num -> pc c <= GoInt.max_int -> (n <= fuel)%nat ->
    getAll_loop fuel num all c w =
      (Returns (Some (all ++ repeat (VError fence) n)),
       set_pipelinedCommands num c, w).
Proof.
  induction n as [|n IH]; intros fuel num all c w Hb Hpc Hn Hc Hf.
  - rewrite getAll_loop_idle by lia. cbn [repeat].
    now rewrite app_nil_r, set_pipelinedCommands_same by lia.
  - destruct fuel as [|fuel]; [lia|]. cbn [getAll_loop]. unfold bind at 1, get.
    destruct (Z.gtb_spec (pc c) num); [|lia].
    erewrite bind_returns by (now apply read_on_broken).
    unfold decrPipelined, bind at 1, modify.
    rewrite IH; cbn [broken pipelinedCommands set_pipelinedCommands]; try assumption.
    + cbn [repeat]. now rewrite <- app_assoc.
    + rewrite GoIntFacts.decr_small; lia.
    + rewrite GoIntFacts.decr_small; lia.
    + lia.
Qed.

(** X11.  Draining a broken connection: once the flush has gone through,
    [getAll] returns a nil error and one copy of the fence's connection
    error per outstanding command, resets the counter, and never calls the
    decoder. *)
Theorem getAll_on_broken (n : nat) (c : connection) (w w1 : World) (p : protocol) :
  broken c = true -> proto c = Some p -> os_flush (os p) w = (None, w1) ->
  pc c = Z.of_nat n -> pc c <= GoInt.max_int ->
  getAll [] c w =
    (Returns (Some (VIfaces (repeat (VError fence) n), None)),
     set_pipelinedCommands 0 c, w1).
Proof.
  intros Hb Hp Hf Hpc Hc.
  assert (Hmin : GoInt.min_int <= 0) by (vm_compute; discriminate).
  assert (F : flush c w = (Returns None, c, w1)).
  { unfold flush, the_protocol. go_unfold. now rewrite Hp, Hf. }
  unfold getAll. erewrite bind_returns by exact F. unfold bind at 1, get.
  erewrite bind_returns
    by (apply getAll_loop_broken with (n := n) (all := @nil value);
        try assumption; lia).
  reflexivity.
Qed.

Lemma getAll_loop_until_connect_error (k : nat) :
  forall fuel num all c w p m rd msg w',
    proto c = Some p -> broken c = false ->
    pc c = num + Z.of_nat (k + 1 + m) ->
    GoInt.min_int <= num -> pc c <= GoInt.max_int -> (k + 1 + m <= fuel)%nat ->
    (forall r, In r (fst (read_n k p w)) -> is_ConnectError (snd r) = false) ->
    protocol_read p (snd (read_n k p w)) = ((rd, Some (ConnectError msg)), w') ->
    getAll_loop fuel num all c w =
      (Returns (Some (all ++ map inline (fst (read_n k p w)) ++
                      VError (ConnectError msg) :: repeat (VError fence) m)),
       set_broken true (set_pipelinedCommands num c), w').
Proof.
  induction k as [|k IH]; intros fuel num all c w p m rd msg w' Hp Hb Hpc Hn Hc Hf Hok Hr;
    (destruct fuel as [|fuel]; [lia|]); cbn [getAll_loop read_n] in *;
    unfold bind at 1, get; (destruct (Z.gtb_spec (pc c) num); [|lia]);
    destruct (read_cases c w)
      as [[E _]|[(_ & E & _)|(p' & rd' & er & w1 & _ & Hp' & Hr' & E)]];
    try congruence;
    assert (p' = p) as -> by congruence.
  - cbn [fst snd map app] in *. rewrite Hr in Hr'. injection Hr' as <- <- <-.
    erewrite bind_returns by exact E. cbn [is_ConnectError].
    unfold decrPipelined, bind at 1, modify.
    rewrite getAll_loop_broken with (n := m);
      cbn [broken pipelinedCommands set_pipelinedCommands set_broken];
      try reflexivity; try assumption.
    + now rewrite <- app_assoc.
    + rewrite GoIntFacts.decr_small; lia.
    + rewrite GoIntFacts.decr_small; lia.
    + lia.
  - rewrite Hr' in *.
    destruct (read_n k p w1) as [rs w2] eqn:Rn. cbn [fst snd map] in *.
    assert (Her : is_ConnectError er = false) by (apply (Hok (rd', er)); now left).
    erewrite bind_returns by exact E. rewrite Her.
    unfold decrPipelined, bind at 1, modify.
    erewrite IH with (p := p) (m := m) (rd := rd) (msg := msg) (w' := w');
      rewrite ?Rn; cbn [fst snd broken proto pipelinedCommands set_pipelinedCommands];
      try eassumption.
    + destruct er as [e|]; cbn [inline]; now rewrite <- !app_assoc.
    + rewrite GoIntFacts.decr_small; lia.
    + rewrite GoIntFacts.decr_small; lia.
    + lia.
    + intros r Hin. apply Hok. now right.
Qed.

(** X12.  A connection error in the middle of a drain.  If the first [k]
    replies decode without a connection error and the next read fails with
    one, [getAll] still returns a nil error and one entry per outstanding
    command: the [k] replies in order, that error, and the fence's error for
    each command that remains; those are not read, and the connection ends
    broken. *)
Theorem getAll_after_connect_error (k m : nat) (c : connection)
        (w w1 w' : World) (p : protocol) (rd : value) (msg : string) :
  proto c = Some p -> broken c = false -> os_flush (os p) w = (None, w1) ->
  pc c = Z.of_nat (k + 1 + m) -> pc c <= GoInt.max_int ->
  (forall r, In r (fst (read_n k p w1)) -> is_ConnectError (snd r) = false) ->
  protocol_read p (snd (read_n k p w1)) = ((rd, Some (ConnectError msg)), w') ->
  getAll [] c w =
    (Returns (Some (VIfaces (map inline (fst (read_n k p w1)) ++
                             VError (ConnectError msg) :: repeat (VError fence) m),
                    None)),
     set_broken true (set_pipelinedCommands 0 c), w').
Proof.
  intros Hp Hb Hf Hpc Hc Hok Hr.
  assert (Hmin : GoInt.min_int <= 0) by (vm_compute; discriminate).
  assert (F : flush c w = (Returns None, c, w1)).
  { unfold flush, the_protocol. go_unfold. now rewrite Hp, Hf. }
  unfold getAll. erewrite bind_returns by exact F. unfold bind at 1, get.
  erewrite bind_returns
    by (apply getAll_loop_until_connect_error
          with (k := k) (m := m) (p := p) (rd := rd) (all := @nil value);
        try eassumption; lia).
  reflexivity.
Qed.

(** X13.  [getAll] with a target: once the flush has gone through it reads
    until the counter is down at the target and no further, so it returns a
    nil error and a list with one entry per command above the target; with
    the counter at or below the target it reads nothing and returns the
    empty list. *)
Theorem getAll_stops_at_target (num : Z) (rest : list Z) (c : connection)
        (w w1 : World) (p : protocol) :
  proto c = Some p -> os_flush (os p) w = (None, w1) ->
  GoInt.min_int <= num -> pc c <= GoInt.max_int ->
  exists all c' w',
    getAll (num :: rest) c w = (Returns (Some (VIfaces all, None)), c', w') /\
    Z.of_nat (List.length all) = Z.max 0 (pc c - num) /\
    pc c' = Z.min (pc c) num /\
    (pc c <= num -> c' = c /\ w' = w1).
Proof.
  intros Hp Hf Hn Hc.
  assert (F : flush c w = (Returns None, c, w1)).
  { unfold flush, the_protocol. go_unfold. now rewrite Hp, Hf. }
  unfold getAll. erewrite bind_returns by exact F. unfold bind at 1, get.
  destruct (Z.le_gt_cases (pc c) num) as [Hle|Hgt].
  - erewrite bind_returns by (apply getAll_loop_idle; exact Hle).
    exists [], c, w1. cbn [List.length]. repeat split; lia.
  - edestruct getAll_loop_length
      with (n := Z.to_nat (pc c - num)) (fuel := Z.to_nat (pc c - num))
           (num := num) (all := @nil value) (c := c) (w := w1)
      as (all & c' & w' & L & Hl & Hpc'); try eassumption; try lia.
    erewrite bind_returns by exact L.
    exists all, c', w'. repeat split; try lia. 
Qed.
End MoreDrainFacts.

(** ** Typed accessors on replies of the right shape *)

Section Projections.
Context {T : Transport}.

Lemma assert_each_map {A} (as_T : value -> option A) (inj : A -> value)
      (arr : list A) :
  (forall a, as_T (inj a) = Some a) -> assert_each as_T (map inj arr) = Some arr.
Proof.
  intros H. induction arr as [|a arr IH]; cbn; [reflexivity|].
  now rewrite H, IH.
Qed.

Lemma assert_each_none {A} (as_T : value -> option A) (l : list value) :
  (exists v, In v l /\ as_T v = None) -> assert_each as_T l = None.
Proof.
  intros (v & Hin & Hv). induction l as [|x l IH]; [destruct Hin|].
  cbn. destruct (as_T x) eqn:Hx; [|reflexivity].
  destruct Hin as [->|Hin]; [congruence|]. now rewrite IH.
Qed.

Lemma assert_each_length {A} (as_T : value -> option A) (l : list value)
      (arr : list A) :
  assert_each as_T l = Some arr -> List.length arr = List.length l.
Proof.
  revert arr. induction l as [|x l IH]; intros arr; cbn.
  - now intros [= <-].
  - destruct (as_T x); [|discriminate].
    destruct (assert_each as_T l); [|discriminate].
    intros [= <-]. cbn. f_equal. now apply IH.
Qed.

(** X14.  A multi-bulk reply all of whose elements are byte strings comes
    back from [getBinaryMultiBulkReply] as those byte strings, and from
    [getMultiBulkReply] as the same strings, in order.  One element of
    another dynamic type, a nil element among them, makes both panic on the
    type assertion. *)
Theorem multi_bulk_projection (c c' : connection) (w w' : World) (l : list value) :
  getOne c w = (Returns (VIfaces l, None), c', w') ->
  (forall arr, l = map VBytes arr ->
     getBinaryMultiBulkReply c w = (Returns (arr, None), c', w') /\
     getMultiBulkReply c w = (Returns (map string_of_list_byte arr, None), c', w')) /\
  ((exists v, In v l /\ as_bytes v = None) ->
     getBinaryMultiBulkReply c w = (Panics InterfaceConversion, c', w') /\
     getMultiBulkReply c w = (Panics InterfaceConversion, c', w')).
Proof.
  intros G. split.
  - intros arr ->.
    assert (B : getBinaryMultiBulkReply c w = (Returns (arr, None), c', w')).
    { unfold getBinaryMultiBulkReply. erewrite bind_returns by exact G.
      cbv beta iota. now rewrite assert_each_map. }
    split; [exact B|].
    unfold getMultiBulkReply. now erewrite bind_returns by exact B.
  - intros H.
    assert (B : getBinaryMultiBulkReply c w = (Panics InterfaceConversion, c', w')).
    { unfold getBinaryMultiBulkReply. erewrite bind_returns by exact G.
      cbv beta iota. now rewrite assert_each_none. }
    split; [exact B|].
    unfold getMultiBulkReply. now erewrite bind_panics by exact B.
Qed.

Lemma integer_multi_bulk_cases (c c' : connection) (w w' : World)
        (reply : value) :
  getOne c w = (Returns (reply, None), c', w') ->
  (forall ns, reply = VIfaces (map VInt64 ns) \/ reply = VInt64s ns ->
     getIntegerMultiBulkReply c w = (Returns (ns, None), c', w')) /\
  (forall l, reply = VIfaces l -> (exists v, In v l /\ as_int64 v = None) ->
     getIntegerMultiBulkReply c w = (Panics InterfaceConversion, c', w')).
Proof.
  intros G. split.
  - intros ns [-> | ->]; unfold getIntegerMultiBulkReply;
      erewrite bind_returns by exact G; cbv beta iota; [|reflexivity].
    now rewrite assert_each_map.
  - intros l -> H. unfold getIntegerMultiBulkReply.
    erewrite bind_returns by exact G. cbv beta iota.
    now rewrite assert_each_none.
Qed.

(** X15.  [getIntegerMultiBulkReply] takes a list of integers in either
    dynamic form, a []interface{} holding int64 values or a []int64, and
    returns the integers in order; a []interface{} with an element that is
    not an int64 makes it panic. *)
Theorem integer_multi_bulk_projection (c c' : connection) (w w' : World)
        (reply : value) :
  getOne c w = (Returns (reply, None), c', w') ->
  (forall ns, reply = VIfaces (map VInt64 ns) \/ reply = VInt64s ns ->
     getIntegerMultiBulkReply c w = (Returns (ns, None), c', w')) /\
  (forall l, reply = VIfaces l -> (exists v, In v l /\ as_int64 v = None) ->
     getIntegerMultiBulkReply c w = (Panics InterfaceConversion, c', w')).
Proof. apply integer_multi_bulk_cases. Qed.

Lemma bulk_cases (c c' : connection) (w w' : World) (reply : value)
        (bs : list byte) :
  getOne c w = (Returns (reply, None), c', w') ->
  reply = VBytes bs \/ reply = VIfaces (map VByte bs) ->
  getBinaryBulkReply c w = (Returns (bs, None), c', w') /\
  getBulkReply c w = (Returns (string_of_list_byte bs, None), c', w').
Proof.
  intros G H.
  assert (B : getBinaryBulkReply c w = (Returns (bs, None), c', w')).
  { unfold getBinaryBulkReply. erewrite bind_returns by exact G.
    destruct H as [-> | ->]; cbv beta iota; [reflexivity|].
    now rewrite assert_each_map. }
  split; [exact B|].
  unfold getBulkReply. now erewrite bind_returns by exact B.
Qed.

(** X16.  A bulk reply is taken as a []byte or as a []interface{} of single
    bytes: either way [getBinaryBulkReply] returns the bytes and
    [getBulkReply] the string they spell. *)
Theorem bulk_projection (c c' : connection) (w w' : World) (reply : value)
        (bs : list byte) :
  getOne c w = (Returns (reply, None), c', w') ->
  reply = VBytes bs \/ reply = VIfaces (map VByte bs) ->
  getBinaryBulkReply c w = (Returns (bs, None), c', w') /\
  getBulkReply c w = (Returns (string_of_list_byte bs, None), c', w').
Proof. apply bulk_cases. Qed.
End Projections.

(** ** More of the client *)

Section MoreRedisFacts.
Context {T : Transport} {P : PoolOps} {B : Builders}.

#[local] Abbreviation pc := pipelinedCommands.

Lemma check_accepts (r : Redis) (w : World) (cl : client) :
  simple_mode r cl -> checkIsInMultiOrPipeline r w = (Returns None, r, w).
Proof.
  intros (Hc & Hm & Hp). unfold checkIsInMultiOrPipeline. go_unfold.
  rewrite Hc, Hm. destruct Hp as [-> |(q & -> & ->)]; reflexivity.
Qed.

Lemma set_client_same (r : Redis) (cl : client) :
  r_client r = Some cl -> set_client (Some (set_conn (conn cl) cl)) r = r.
Proof. destruct r, cl. cbn. now intros ->. Qed.

Lemma guarded_runs {A} (zero : A) (send : M connection (option error))
      (reply : M connection (A * option error)) (r : Redis) (w w1 w2 : World)
      (cl : client) (c1 c2 : connection) (o : outcome (A * option error)) :
  simple_mode r cl ->
  send (conn cl) w = (Returns None, c1, w1) -> reply c1 w1 = (o, c2, w2) ->
  guarded zero send reply r w = (o, set_client (Some (set_conn c2 cl)) r, w2).
Proof.
  intros Hs E1 E2. unfold guarded.
  erewrite bind_returns by (eapply check_accepts; exact Hs). cbv beta iota.
  erewrite bind_returns by (apply on_client_returns; [apply Hs|exact E1]).
  cbv beta iota.
  erewrite on_client_returns with (cl := set_conn c1 cl);
    [reflexivity|reflexivity|exact E2].
Qed.

Lemma sendRaw_connected (raw : list byte) (args : list (list byte))
      (c : connection) (w w1 : World) (s : net_Conn) (p : protocol) :
  socket c = Some s -> proto c = Some p ->
  protocol_sendCommand p raw args w = (None, w1) ->
  sendRaw raw args c w =
    (Returns None, set_pipelinedCommands (GoInt.incr (pc c)) c, w1).
Proof.
  intros Hs Hp He.
  unfold sendRaw, connect, isConnected, the_protocol, incrPipelined.
  go_unfold. now rewrite Hs, Hp, He.
Qed.

Lemma getOne_live (c : connection) (w w1 w2 : World) (p : protocol) (rd : value) :
  proto c = Some p -> broken c = false ->
  os_flush (os p) w = (None, w1) -> protocol_read p w1 = ((rd, None), w2) ->
  getOne c w =
    (Returns (rd, None), set_pipelinedCommands (GoInt.decr (pc c)) c, w2).
Proof.
  intros Hp Hb Hf Hr.
  assert (F : flush c w = (Returns None, c, w1)).
  { unfold flush, the_protocol. go_unfold. now rewrite Hp, Hf. }
  unfold getOne. erewrite bind_returns by exact F.
  unfold decrPipelined, bind at 1, modify.
  destruct (read_cases (set_pipelinedCommands (GoInt.decr (pc c)) c) w1)
    as [[E _]|[(_ & E & _)|(p' & rd' & er & w' & _ & Hp' & Hr' & E)]];
    cbn [broken proto set_pipelinedCommands] in *; try congruence.
  assert (p' = p) as -> by congruence.
  rewrite Hr in Hr'. injection Hr' as <- <- <-. exact E.
Qed.

(** X17.  The guarded methods [Set], [Get], [Incr] and [HSet]: on a client
    that is inside MULTI, or whose pipeline holds responses not yet read,
    each returns its zero value and a data error, and client, connection and
    world are as they were. *)
Theorem guarded_commands_rejected (key field value : string)
        (r : Redis) (w : World) (cl : client) :
  r_client r = Some cl ->
  isInMulti cl = true \/
  (exists q, r_pipeline r = Some q /\ pipelinedResponses q <> []) ->
  exists msg,
    Set_ key value r w = (Returns ("", Some (DataError msg)), r, w) /\
    Get key r w = (Returns ("", Some (DataError msg)), r, w) /\
    Incr key r w = (Returns (0, Some (DataError msg)), r, w) /\
    HSet key field value r w = (Returns (0, Some (DataError msg)), r, w).
Proof.
  intros Hc H.
  edestruct check_rejects with (w := w) as [msg E]; [exact Hc|exact H|].
  exists msg.
  repeat split; unfold Set_, Get, Incr, HSet, guarded;
    now erewrite bind_returns by exact E.
Qed.

(** X18.  [Get] in simple mode on a live, healthy connection: when the
    encoder and the flush succeed and the reply decodes to a byte string,
    [Get] returns that string with a nil error, and client and connection
    are as before: the command counted by the send has been read. *)
Theorem Get_returns_the_bulk (key : string) (r : Redis) (cl : client)
        (w w1 w2 w3 : World) (s : net_Conn) (p : protocol) (b : list byte) :
  simple_mode r cl ->
  socket (conn cl) = Some s -> proto (conn cl) = Some p ->
  broken (conn cl) = false ->
  GoInt.min_int <= pc (conn cl) < GoInt.max_int ->
  protocol_sendCommand p (getRaw cmdGet) [StrToBytes key] w = (None, w1) ->
  os_flush (os p) w1 = (None, w2) ->
  protocol_read p w2 = ((VBytes b, None), w3) ->
  Get key r w = (Returns (string_of_list_byte b, None), r, w3).
Proof.
  intros Hs Hsock Hp Hb Hpc He Hf Hr.
  pose proof (sendRaw_connected _ _ _ _ Hsock Hp He) as S.
  assert (G : getOne (set_pipelinedCommands (GoInt.incr (pc (conn cl))) (conn cl)) w1
              = (Returns (VBytes b, None), conn cl, w3)).
  { rewrite getOne_live with (p := p) (w1 := w2) (rd := VBytes b) (w2 := w3);
      cbn [proto broken pipelinedCommands set_pipelinedCommands];
      try assumption.
    rewrite GoIntFacts.incr_small by lia.
    rewrite GoIntFacts.decr_small by lia.
    rewrite set_pipelinedCommands_twice, set_pipelinedCommands_same by lia.
    reflexivity. }
  edestruct bulk_cases with (bs := b) as [_ Bk]; [exact G|now left|].
  unfold Get. erewrite guarded_runs; [|exact Hs|exact S|exact Bk].
  rewrite set_client_same by apply Hs. reflexivity.
Qed.

(** X19.  Closing twice.  On a client that has no pool, whatever the first
    [Close] returned, a second [Close] returns nil and changes neither the
    client nor the world; the same holds for the nil receiver. *)
Theorem Close_twice (ro : option Redis) (w : World) :
  (forall r, ro = Some r -> r_dataSource r = None) ->
  forall o ro' w', Close ro w = (o, ro', w') ->
    Close ro' w' = (Returns None, ro', w').
Proof.
  intros Hd o ro' w'. destruct ro as [r|]; [|intros [= <- <- <-]; reflexivity].
  specialize (Hd r eq_refl). unfold Close. rewrite Hd.
  destruct (r_client r) as [cl|] eqn:Hc.
  - unfold on_client. rewrite Hc.
    destruct (close (conn cl) w) as [[oc c1] w1] eqn:E.
    intros [= <- <- <-].
    destruct (close_outcomes _ _ E) as (-> & _ & _ & E2).
    cbn [r_dataSource r_client set_client conn set_conn]. rewrite Hd.
    unfold close in *. go_unfold. cbn. reflexivity.
  - unfold ret. intros [= <- <- <-]. now rewrite Hd, Hc.
Qed.

(** X20.  [Eval] and [EvalByKeyArgs] when the dial fails: the connection
    error of the dial is returned, and the deferred [rollbackTimeout], which
    finds no socket, leaves the connection marked broken.  [sendCommand]
    after the same failed dial would have left it unmarked. *)
Theorem Eval_failed_dial_marks_broken (script : string) (keyCount : Z)
        (params keys args : list string) (r : Redis) (cl : client)
        (w w1 : World) (e : error) :
  r_client r = Some cl -> socket (conn cl) = None ->
  net_DialTimeout (host (conn cl)) (port (conn cl))
                  (connectionTimeout (conn cl)) w = (inr e, w1) ->
  let r' := set_client (Some (set_conn (set_broken true (conn cl)) cl)) r in
  Eval script keyCount params r w =
    (Returns (VNil, Some (ConnectError (Error e))), r', w1) /\
  EvalByKeyArgs script keys args r w =
    (Returns (VNil, Some (ConnectError (Error e))), r', w1).
Proof.
  intros Hc Hs Hd r'.
  assert (S : on_client setTimeoutInfinite r w =
              (Returns (Some (ConnectError (Error e))),
               set_client (Some (set_conn (conn cl) cl)) r, w1)).
  { apply on_client_returns; [exact Hc|].
    assert (I : isConnected (conn cl) w = (Returns false, conn cl, w))
      by (unfold isConnected; go_unfold; now rewrite Hs).
    assert (Cn : connect (conn cl) w =
                 (Returns (Some (ConnectError (Error e))), conn cl, w1))
      by (unfold connect, isConnected; go_unfold; now rewrite Hs, Hd).
    unfold setTimeoutInfinite. erewrite bind_returns by exact I. cbn [negb].
    now erewrite bind_returns by exact Cn. }
  rewrite set_client_same in S by exact Hc.
  assert (R : on_client rollbackTimeout r w1 =
              (Returns (Some (ConnectError "socket is closed")), r', w1)).
  { apply on_client_returns; [exact Hc|].
    unfold rollbackTimeout. go_unfold. now rewrite Hs. }
  split; unfold Eval, EvalByKeyArgs;
    erewrite bind_returns by exact S; unfold defer, ret; now rewrite R.
Qed.

(** X21.  [ScriptExists] turns the integers of the reply into booleans, one
    per integer and in order, true exactly for 1. *)
Theorem ScriptExists_maps_ones (sha1 : list string) (r : Redis) (cl cl1 : client)
        (c2 : connection) (w w1 w2 : World) (reply : value) (ns : list Z) :
  r_client r = Some cl ->
  client_scriptExists sha1 cl w = (Returns None, cl1, w1) ->
  getOne (conn cl1) w1 = (Returns (reply, None), c2, w2) ->
  reply = VIfaces (map VInt64 ns) \/ reply = VInt64s ns ->
  ScriptExists sha1 r w =
    (Returns (map (fun n => Z.eqb n 1) ns, None),
     set_client (Some (set_conn c2 cl1)) r, w2).
Proof.
  intros Hc Hb G Hr.
  edestruct integer_multi_bulk_cases as [I _]; [exact G|].
  specialize (I ns Hr).
  unfold ScriptExists, on_the_client at 1. unfold bind at 1. rewrite Hc, Hb.
  erewrite bind_returns
    by (apply on_client_returns with (cl := cl1); [reflexivity|exact I]).
  reflexivity.
Qed.

Lemma assert_each_addr_of (reply : list value) :
  Forall (fun v => v = VNil \/ exists b, v = VBytes b) reply ->
  assert_each addr_of reply =
    Some (map (fun v => match v with
                        | VBytes b => string_of_list_byte b
                        | _ => ""
                        end) reply).
Proof.
  induction 1 as [|v l Hv _ IH]; cbn; [reflexivity|].
  rewrite IH. destruct Hv as [-> |[b ->]]; reflexivity.
Qed.

(** X22.  [SentinelGetMasterAddrByName] returns one string per element of
    the reply, in order: the empty string for a nil element, the text of a
    byte string otherwise.  An element of any other dynamic type makes it
    panic. *)
Theorem SentinelGetMasterAddrByName_addresses (masterName : string) (r : Redis)
        (cl cl1 : client) (c2 : connection) (w w1 w2 : World)
        (reply : list value) :
  r_client r = Some cl ->
  client_sentinelGetMasterAddrByName masterName cl w = (Returns None, cl1, w1) ->
  getObjectMultiBulkReply (conn cl1) w1 = (Returns (reply, None), c2, w2) ->
  (Forall (fun v => v = VNil \/ exists b, v = VBytes b) reply ->
   SentinelGetMasterAddrByName masterName r w =
     (Returns (map (fun v => match v with
                             | VBytes b => string_of_list_byte b
                             | _ => ""
                             end) reply, None),
      set_client (Some (set_conn c2 cl1)) r, w2)) /\
  ((exists v, In v reply /\ addr_of v = None) ->
   SentinelGetMasterAddrByName masterName r w =
     (Panics InterfaceConversion, set_client (Some (set_conn c2 cl1)) r, w2)).
Proof.
  intros Hc Hb G.
  assert (E' :
    SentinelGetMasterAddrByName masterName r w =
      (match assert_each addr_of reply with
       | Some addrs => ret (addrs, None)
       | None => raise InterfaceConversion
       end) (set_client (Some (set_conn c2 cl1)) r) w2).
  { unfold SentinelGetMasterAddrByName, on_the_client at 1. unfold bind at 1.
    rewrite Hc, Hb.
    erewrite bind_returns
      by (apply on_client_returns with (cl := cl1); [reflexivity|exact G]).
    reflexivity. }
  split; intros H; rewrite E'.
  - now rewrite assert_each_addr_of.
  - now rewrite assert_each_none.
Qed.
End MoreRedisFacts.

(** ** More runs on the scripted transport *)

Module SimMore.
#[local] Existing Instance Sim.transport.
#[local] Existing Instance Sim.constants.
#[local] Existing Instance Sim.pool.
#[local] Existing Instance SimBuilders.builders.

#[local] Abbreviation fence :=
  (ConnectError "attempting to read from a broken connection").
#[local] Abbreviation read_done :=
  (Sim.mkWorld true [] [Sim.Read 1%nat; Sim.Flush 1%nat]).

Lemma broken_is_sticky_witness :
  Forall (fun c => broken c = true)
         (history [m_sendCommand cmdSet []; m_getOne; m_close; m_connect;
                   m_resetPipelinedCount; m_getAll []]
                  (Sim.live 0 true) (Sim.quiet [(VString "OK", None)])).
Proof. apply broken_is_sticky. reflexivity. Defined.

Lemma connect_all_or_nothing_witness :
  (socket Sim.fresh <> None /\
   Returns (Some (ConnectError "connection refused")) = Returns None /\
   Sim.fresh = Sim.fresh /\
   Sim.mkWorld false [] [Sim.Dial "localhost" 6379] = Sim.down) \/
  (socket Sim.fresh = None /\ Sim.fresh = Sim.fresh /\
   exists msg, Returns (Some (ConnectError "connection refused")) =
               Returns (Some (ConnectError msg))) \/
  (socket Sim.fresh = None /\
   Returns (Some (ConnectError "connection refused")) = Returns None /\
   exists conn, Sim.fresh =
     set_proto (Some (newProtocol (newRedisOutputStream conn)
                                  (newRedisInputStream conn)))
               (set_socket (Some conn) Sim.fresh)).
Proof.
  apply (connect_all_or_nothing (T := Sim.transport) Sim.fresh Sim.down).
  reflexivity.
Defined.

Lemma reads_before_connect_panic_witness :
  getOne Sim.fresh (Sim.quiet []) = (Panics NilDereference, Sim.fresh, Sim.quiet []).
Proof.
  apply (reads_before_connect_panic (T := Sim.transport) Sim.fresh (Sim.quiet []) []).
  reflexivity.
Defined.

Lemma close_forgets_socket_witness :
  close (set_socket None (Sim.live 2 false))
        (Sim.mkWorld true [] [Sim.CloseConn 1%nat]) =
    (Returns None, set_socket None (Sim.live 2 false),
     Sim.mkWorld true [] [Sim.CloseConn 1%nat]).
Proof.
  eapply (close_forgets_socket (T := Sim.transport) (Sim.live 2 false) (Sim.quiet [])).
  reflexivity.
Defined.

Lemma sendCommand_connects_lazily_witness :
  sendCommand cmdGet [StrToBytes "k"] Sim.fresh (Sim.quiet []) =
    (Returns None,
     mkConnection "localhost" 6379 5000000000 5000000000 (Some 1%nat)
                  (Some Sim.streams) false 1,
     Sim.mkWorld true []
       [Sim.Encode (getRaw cmdGet) [StrToBytes "k"];
        Sim.SetDeadline 1%nat (Some 5000000000);
        Sim.Dial "localhost" 6379]).
Proof.
  apply (sendCommand_connects_lazily (T := Sim.transport) cmdGet [StrToBytes "k"]
           Sim.fresh (Sim.quiet [])
           (w1 := Sim.mkWorld true [] [Sim.Dial "localhost" 6379])
           (w2 := Sim.mkWorld true []
              [Sim.SetDeadline 1%nat (Some 5000000000); Sim.Dial "localhost" 6379]));
    reflexivity.
Defined.

Lemma sendCommand_leaves_broken_flag_witness :
  broken (Sim.live 1 false) = broken (Sim.live 0 false).
Proof.
  eapply (sendCommand_leaves_broken_flag (T := Sim.transport) cmdSet []
            (Sim.live 0 false) (Sim.quiet [])).
  reflexivity.
Defined.

Lemma flush_failure_in_accessors_witness :
  getIntegerReply (Sim.live 1 false) Sim.down =
    (Returns (0, Some (ConnectError "broken pipe")), Sim.live 1 true,
     Sim.mkWorld false [] [Sim.Flush 1%nat]).
Proof.
  pose proof (flush_failure_in_accessors (T := Sim.transport) (Sim.live 1 false)
                Sim.down (p := Sim.streams)
                (e := ConnectError "broken pipe") [] eq_refl eq_refl) as H.
  cbv zeta in H. apply H.
Defined.

Lemma getOne_on_broken_witness :
  getOne (Sim.live 1 true) (Sim.quiet [(VString "OK", None)]) =
    (Returns (VNil, Some fence), Sim.live 0 true,
     Sim.mkWorld true [(VString "OK", None)] [Sim.Flush 1%nat]).
Proof.
  apply (getOne_on_broken (T := Sim.transport) (Sim.live 1 true)
           (Sim.quiet [(VString "OK", None)]) (p := Sim.streams)); reflexivity.
Defined.

Lemma getAll_on_broken_witness :
  getAll [] (Sim.live 2 true) (Sim.quiet [(VString "OK", None)]) =
    (Returns (Some (VIfaces [VError fence; VError fence], None)), Sim.live 0 true,
     Sim.mkWorld true [(VString "OK", None)] [Sim.Flush 1%nat]).
Proof.
  apply (getAll_on_broken (T := Sim.transport) 2 (Sim.live 2 true)
           (Sim.quiet [(VString "OK", None)]) (p := Sim.streams));
    try reflexivity.
  vm_compute. discriminate.
Defined.

Lemma getAll_after_connect_error_witness :
  getAll [] (Sim.live 3 false)
         (Sim.quiet [(VInt64 1, None); (VNil, Some (ConnectError "reset"));
                     (VInt64 3, None)]) =
    (Returns (Some (VIfaces [VInt64 1; VError (ConnectError "reset"); VError fence],
                    None)),
     Sim.live 0 true,
     Sim.mkWorld true [(VInt64 3, None)]
       [Sim.Read 1%nat; Sim.Read 1%nat; Sim.Flush 1%nat]).
Proof.
  apply (getAll_after_connect_error (T := Sim.transport) 1 1 (Sim.live 3 false)
           (Sim.quiet [(VInt64 1, None); (VNil, Some (ConnectError "reset"));
                       (VInt64 3, None)])
           (p := Sim.streams) (rd := VNil) (msg := "reset")
           (w1 := Sim.mkWorld true
                    [(VInt64 1, None); (VNil, Some (ConnectError "reset"));
                     (VInt64 3, None)] [Sim.Flush 1%nat])
           (w' := Sim.mkWorld true [(VInt64 3, None)]
                    [Sim.Read 1%nat; Sim.Read 1%nat; Sim.Flush 1%nat]));
    try reflexivity.
  - vm_compute. discriminate.
  - intros r Hr. cbn in Hr. destruct Hr as [<-|[]]. reflexivity.
Defined.

Lemma getAll_stops_at_target_witness :
  exists all c' w',
    getAll [1] (Sim.live 3 false)
           (Sim.quiet [(VInt64 1, None); (VInt64 2, None); (VInt64 3, None)]) =
      (Returns (Some (VIfaces all, None)), c', w') /\
    Z.of_nat (List.length all) = Z.max 0 (3 - 1) /\
    pipelinedCommands c' = Z.min 3 1 /\
    (3 <= 1 -> c' = Sim.live 3 false /\
               w' = Sim.mkWorld true
                      [(VInt64 1, None); (VInt64 2, None); (VInt64 3, None)]
                      [Sim.Flush 1%nat]).
Proof.
  apply (@getAll_stops_at_target Sim.transport 1 [] (Sim.live 3 false)
           (Sim.quiet [(VInt64 1, None); (VInt64 2, None); (VInt64 3, None)])
           _ Sim.streams);
    try reflexivity; vm_compute; discriminate.
Defined.

Lemma multi_bulk_projection_witness :
  getMultiBulkReply (Sim.live 1 false)
    (Sim.quiet [(VIfaces [VBytes (list_byte_of_string "a");
                          VBytes (list_byte_of_string "b")], None)]) =
    (Returns (["a"; "b"], None), Sim.live 0 false,
     Sim.mkWorld true [] [Sim.Read 1%nat; Sim.Flush 1%nat]) /\
  getMultiBulkReply (Sim.live 1 false)
    (Sim.quiet [(VIfaces [VBytes (list_byte_of_string "a"); VNil], None)]) =
    (Panics InterfaceConversion, Sim.live 0 false,
     Sim.mkWorld true [] [Sim.Read 1%nat; Sim.Flush 1%nat]).
Proof.
  split.
  - edestruct (@multi_bulk_projection Sim.transport (Sim.live 1 false)
                 (Sim.live 0 false)
                 (Sim.quiet [(VIfaces [VBytes (list_byte_of_string "a");
                                       VBytes (list_byte_of_string "b")], None)])
                 read_done
                 [VBytes (list_byte_of_string "a"); VBytes (list_byte_of_string "b")])
      as [H _]; [reflexivity|].
    apply (H [list_byte_of_string "a"; list_byte_of_string "b"] eq_refl).
  - edestruct (@multi_bulk_projection Sim.transport (Sim.live 1 false)
                 (Sim.live 0 false)
                 (Sim.quiet [(VIfaces [VBytes (list_byte_of_string "a"); VNil],
                              None)])
                 read_done
                 [VBytes (list_byte_of_string "a"); VNil])
      as [_ H]; [reflexivity|].
    apply H. exists VNil. split; [right; left; reflexivity|reflexivity].
Defined.

Lemma integer_multi_bulk_projection_witness :
  getIntegerMultiBulkReply (Sim.live 1 false)
    (Sim.quiet [(VIfaces [VInt64 1; VInt64 0], None)]) =
    (Returns ([1; 0], None), Sim.live 0 false,
     Sim.mkWorld true [] [Sim.Read 1%nat; Sim.Flush 1%nat]).
Proof.
  edestruct (@integer_multi_bulk_projection Sim.transport (Sim.live 1 false)
               (Sim.live 0 false)
               (Sim.quiet [(VIfaces [VInt64 1; VInt64 0], None)])
               read_done (VIfaces [VInt64 1; VInt64 0]))
    as [H _]; [reflexivity|].
  apply (H [1; 0]). left. reflexivity.
Defined.

Lemma bulk_projection_witness :
  getBulkReply (Sim.live 1 false)
    (Sim.quiet [(VIfaces [VByte "h"%byte; VByte "i"%byte], None)]) =
    (Returns ("hi", None), Sim.live 0 false,
     Sim.mkWorld true [] [Sim.Read 1%nat; Sim.Flush 1%nat]).
Proof.
  eapply (@bulk_projection Sim.transport (Sim.live 1 false) _ _ _ _
            ["h"%byte; "i"%byte]);
    [reflexivity|]. right. reflexivity.
Defined.

Lemma guarded_commands_rejected_witness :
  exists msg,
    Set_ "k" "v" SimBuilders.piped (Sim.quiet []) =
      (Returns ("", Some (DataError msg)), SimBuilders.piped, Sim.quiet []) /\
    Get "k" SimBuilders.piped (Sim.quiet []) =
      (Returns ("", Some (DataError msg)), SimBuilders.piped, Sim.quiet []) /\
    Incr "k" SimBuilders.piped (Sim.quiet []) =
      (Returns (0, Some (DataError msg)), SimBuilders.piped, Sim.quiet []) /\
    HSet "k" "f" "v" SimBuilders.piped (Sim.quiet []) =
      (Returns (0, Some (DataError msg)), SimBuilders.piped, Sim.quiet []).
Proof.
  eapply (@guarded_commands_rejected Sim.transport); [reflexivity|].
  right. exists (mkPipeline [owed]). split; [reflexivity|discriminate].
Defined.

Lemma simple_mode_sim : simple_mode (Sim.redis false None false)
                                    (mkClient (Sim.live 0 false) false).
Proof. repeat split. now left. Qed.

Lemma Get_returns_the_bulk_witness :
  Get "k" (Sim.redis false None false)
      (Sim.quiet [(VBytes (list_byte_of_string "v"), None)]) =
    (Returns ("v", None), Sim.redis false None false,
     Sim.mkWorld true []
       [Sim.Read 1%nat; Sim.Flush 1%nat;
        Sim.Encode (getRaw cmdGet) [StrToBytes "k"]]).
Proof.
  apply (@Get_returns_the_bulk Sim.transport "k" (Sim.redis false None false)
           (mkClient (Sim.live 0 false) false)
           (Sim.quiet [(VBytes (list_byte_of_string "v"), None)])
           (Sim.mkWorld true [(VBytes (list_byte_of_string "v"), None)]
              [Sim.Encode (getRaw cmdGet) [StrToBytes "k"]])
           (Sim.mkWorld true [(VBytes (list_byte_of_string "v"), None)]
              [Sim.Flush 1%nat; Sim.Encode (getRaw cmdGet) [StrToBytes "k"]])
           (Sim.mkWorld true []
              [Sim.Read 1%nat; Sim.Flush 1%nat;
               Sim.Encode (getRaw cmdGet) [StrToBytes "k"]])
           1%nat Sim.streams (list_byte_of_string "v"));
    try reflexivity.
  - exact simple_mode_sim.
  - vm_compute. split; [discriminate|reflexivity].
Defined.

Lemma Close_twice_witness :
  Close (Some (mkRedis (Some (mkClient (set_socket None (Sim.live 0 false)) false))
                       None None))
        (Sim.mkWorld true [] [Sim.CloseConn 1%nat]) =
    (Returns None,
     Some (mkRedis (Some (mkClient (set_socket None (Sim.live 0 false)) false))
                   None None),
     Sim.mkWorld true [] [Sim.CloseConn 1%nat]).
Proof.
  eapply (@Close_twice Sim.transport Sim.pool
            (Some (Sim.redis false None false)) (Sim.quiet [])).
  - intros r [= <-]. reflexivity.
  - reflexivity.
Defined.

Lemma Eval_failed_dial_marks_broken_witness :
  Eval "return 1" 0 [] SimBuilders.unconnected Sim.down =
    (Returns (VNil, Some (ConnectError "connection refused")),
     mkRedis (Some (mkClient (set_broken true Sim.fresh) false)) None None,
     Sim.mkWorld false [] [Sim.Dial "localhost" 6379]).
Proof.
  pose proof (@Eval_failed_dial_marks_broken Sim.transport SimBuilders.builders
                "return 1" 0 [] [] [] SimBuilders.unconnected
                (mkClient Sim.fresh false) Sim.down
                (Sim.mkWorld false [] [Sim.Dial "localhost" 6379])
                (NetError "connection refused") eq_refl eq_refl eq_refl) as H.
  cbv zeta in H. apply H.
Defined.

Lemma ScriptExists_maps_ones_witness :
  ScriptExists ["abc"; "def"] (Sim.redis false None false)
               (Sim.quiet [(VIfaces [VInt64 1; VInt64 0], None)]) =
    (Returns ([true; false], None),
     set_client (Some (set_conn (Sim.live 0 false)
                                (mkClient (Sim.live 1 false) false)))
                (Sim.redis false None false),
     Sim.mkWorld true []
       [Sim.Read 1%nat; Sim.Flush 1%nat;
        Sim.Encode (list_byte_of_string "SCRIPT")
                   (map list_byte_of_string ["EXISTS"; "abc"; "def"])]).
Proof.
  apply (@ScriptExists_maps_ones Sim.transport SimBuilders.builders
           ["abc"; "def"] (Sim.redis false None false)
           (mkClient (Sim.live 0 false) false) (mkClient (Sim.live 1 false) false)
           (Sim.live 0 false)
           (Sim.quiet [(VIfaces [VInt64 1; VInt64 0], None)])
           (Sim.mkWorld true [(VIfaces [VInt64 1; VInt64 0], None)]
              [Sim.Encode (list_byte_of_string "SCRIPT")
                          (map list_byte_of_string ["EXISTS"; "abc"; "def"])])
           (Sim.mkWorld true []
              [Sim.Read 1%nat; Sim.Flush 1%nat;
               Sim.Encode (list_byte_of_string "SCRIPT")
                          (map list_byte_of_string ["EXISTS"; "abc"; "def"])])
           (VIfaces [VInt64 1; VInt64 0]) [1; 0]);
    try reflexivity.
  left. reflexivity.
Defined.

Lemma SentinelGetMasterAddrByName_addresses_witness :
  SentinelGetMasterAddrByName "mymaster" (Sim.redis false None false)
    (Sim.quiet [(VIfaces [VBytes (list_byte_of_string "10.0.0.1"); VNil], None)]) =
    (Returns (["10.0.0.1"; ""], None),
     set_client (Some (set_conn (Sim.live 0 false)
                                (mkClient (Sim.live 1 false) false)))
                (Sim.redis false None false),
     Sim.mkWorld true []
       [Sim.Read 1%nat; Sim.Flush 1%nat;
        Sim.Encode (list_byte_of_string "SENTINEL")
                   (map list_byte_of_string ["get-master-addr-by-name"; "mymaster"])]).
Proof.
  destruct (@SentinelGetMasterAddrByName_addresses Sim.transport
              SimBuilders.builders "mymaster" (Sim.redis false None false)
              (mkClient (Sim.live 0 false) false)
              (mkClient (Sim.live 1 false) false) (Sim.live 0 false)
              (Sim.quiet [(VIfaces [VBytes (list_byte_of_string "10.0.0.1"); VNil],
                           None)])
              (Sim.mkWorld true
                 [(VIfaces [VBytes (list_byte_of_string "10.0.0.1"); VNil], None)]
                 [Sim.Encode (list_byte_of_string "SENTINEL")
                    (map list_byte_of_string
                         ["get-master-addr-by-name"; "mymaster"])])
              (Sim.mkWorld true []
                 [Sim.Read 1%nat; Sim.Flush 1%nat;
                  Sim.Encode (list_byte_of_string "SENTINEL")
                    (map list_byte_of_string
                         ["get-master-addr-by-name"; "mymaster"])])
              [VBytes (list_byte_of_string "10.0.0.1"); VNil]
              eq_refl eq_refl eq_refl)
    as [H _].
  apply H. constructor; [right; eexists; reflexivity|].
  constructor; [left; reflexivity|constructor].
Defined.
End SimMore.
